(** * ShinySDR value types ([shinysdr/types.py]): a shallow embedding

    The development follows the Python module class by class.  Python
    numbers are modelled by [num]: an [Int] is a Python [int]/[long], a
    [Float] is a finite Python [float] whose value is kept as an exact
    rational.  Rounding error of binary64 arithmetic, infinities and NaN
    are outside the model; everything else (exceptions, list indexing with
    negative indices, the binary search of [bisect], the int/float result
    types of Python 2 arithmetic) is written out as the interpreter does
    it. *)

From Stdlib Require Import ZArith QArith Qround Qabs Qcanon Qpower.
From Stdlib Require Import Lqa Lia List Bool Ascii.
From stdpp Require Import base option gmap strings.
Import ListNotations.

Local Open Scope Z_scope.

(** ** Exceptions and results *)

Inductive exn : Type :=
| TypeError
| ValueError
| IndexError
| NotImplementedError
| Exception_.

(** Outcome of running a piece of Python: a value, a raised exception, or
    [OutOfFuel] when a loop of the model was cut short (shown below never
    to happen for the loops of this module). *)
Inductive result (A : Type) : Type :=
| Ok (a : A)
| Raise (e : exn)
| OutOfFuel.

Arguments Ok {A} a.
Arguments Raise {A} e.
Arguments OutOfFuel {A}.

Definition bind {A B : Type} (m : result A) (k : A -> result B) : result B :=
  match m with
  | Ok a => k a
  | Raise e => Raise e
  | OutOfFuel => OutOfFuel
  end.

Notation "'let*' x ':=' m 'in' k" := (bind m (fun x => k))
  (at level 10, x name, m at level 100, k at level 200).

(** ** Python numbers *)

Inductive num : Type :=
| Int (z : Z)
| Float (q : Q).

Definition toQ (n : num) : Q :=
  match n with
  | Int z => inject_Z z
  | Float q => q
  end.

(** [float(x)] *)
Definition py_float (n : num) : num := Float (toQ n).

(** [a < b], [a > b], [a <= b], [a == b]: Python compares an int with a
    float by value. *)
Definition num_ltb (a b : num) : bool :=
  match (toQ a ?= toQ b)%Q with Lt => true | _ => false end.

Definition num_gtb (a b : num) : bool := num_ltb b a.

Definition num_leb (a b : num) : bool := negb (num_ltb b a).

Definition num_eqb (a b : num) : bool :=
  match (toQ a ?= toQ b)%Q with Eq => true | _ => false end.

(** [a - b] and [a + b]: int with int stays an int, anything else is a
    float. *)
Definition num_sub (a b : num) : num :=
  match a, b with
  | Int x, Int y => Int (x - y)
  | _, _ => Float (toQ a - toQ b)
  end.



(** [round(x)] of Python 2: nearest integer, halves away from zero; the
    result is a float. *)
Definition round_half_away (q : Q) : Z :=
  if Qle_bool 0 q then Qfloor (q + (1 # 2)) else - Qfloor (- q + (1 # 2)).

Definition py_round (q : Q) : Q := inject_Z (round_half_away q).

(** [int(x)] on a float: truncation toward zero. *)
Definition py_int (q : Q) : Z := Z.quot (Qnum q) (Zpos (Qden q)).

(** [floor (log2 (a / b))] for positive [a], [b]. *)
Definition log2_floor_frac (a b : positive) : Z :=
  let e := Z.log2 (Zpos a) - Z.log2 (Zpos b) in
  let below :=
    if 0 <=? e then Zpos a <? Zpos b * 2 ^ e
    else Zpos a * 2 ^ (- e) <? Zpos b in
  if below then e - 1 else e.

(** [int(round(math.log(x, 2)))].  [math.log] raises [ValueError] outside
    its domain.  For a positive rational [x] the logarithm is never half
    way between two integers, so the rounded value is the [k] with
    [2^(2k-1) <= x^2 < 2^(2k+1)], that is [(floor (log2 (x^2)) + 1) // 2];
    [round_log2_spec] and [round_log2_unique] below show that this is what
    the function computes. *)
Definition round_log2 (x : Q) : result Z :=
  let r := Qred x in
  match Qnum r with
  | Zpos n => Ok ((log2_floor_frac (n * n) (Qden r * Qden r) + 1) / 2)
  | _ => Raise ValueError
  end.

(** [2 ** k] for an int [k]: an int when [k >= 0], a float otherwise. *)
Definition pow2 (k : Z) : num :=
  if 0 <=? k then Int (2 ^ k) else Float (1 # Z.to_pos (2 ^ (- k))).

(** ** Lists *)

(** [len(l)] *)
Definition len {A : Type} (l : list A) : Z := Z.of_nat (length l).

(** [l[i]], with Python's negative indices. *)
Definition py_index {A : Type} (l : list A) (i : Z) : result A :=
  let j := if i <? 0 then i + len l else i in
  if j <? 0 then Raise IndexError
  else match nth_error l (Z.to_nat j) with
       | Some a => Ok a
       | None => Raise IndexError
       end.

(** [bisect.bisect_right(a, x)]:
<<
    lo, hi = 0, len(a)
    while lo < hi:
        mid = (lo+hi)//2
        if x < a[mid]: hi = mid
        else: lo = mid+1
    return lo
>> *)
Fixpoint bisect_loop (fuel : nat) (a : list num) (x : num) (lo hi : Z)
  : result Z :=
  if lo <? hi then
    match fuel with
    | O => OutOfFuel
    | S fuel' =>
        let mid := (lo + hi) / 2 in
        let* am := py_index a mid in
        if num_ltb x am then bisect_loop fuel' a x lo mid
        else bisect_loop fuel' a x (mid + 1) hi
    end
  else Ok lo.

Definition bisect_right (a : list num) (x : num) : result Z :=
  bisect_loop (length a) a x 0 (len a).

(** ** class Range *)

Record Range : Type := mkRange {
  mins : list num;
  maxes : list num;
  strict : bool;
  logarithmic : bool;
  integer : bool
}.

(** [Range.__init__] *)
Definition Range_init (subranges : list (num * num))
    (strict logarithmic integer : bool) : Range :=
  {| mins := map fst subranges;
     maxes := map snd subranges;
     strict := strict;
     logarithmic := logarithmic;
     integer := integer |}.

(** The quantization step of [Range.__call__] (the [if self.__integer]
    block), applied to the specimen after [float(specimen)]. *)
Definition quantize (r : Range) (specimen : num) : result num :=
  if integer r then
    if logarithmic r then
      let* specimen :=
        if num_leb specimen (Int 0) then py_index (mins r) 0
        else Ok specimen in
      let* k := round_log2 (toQ specimen) in
      Ok (pow2 k)
    else Ok (Int (py_int (py_round (toQ specimen))))
  else Ok specimen.

(** The index of the subrange chosen by the strict branch: the bisection,
    the floor at 0 and the step to the nearer neighbour. *)
Definition select_index (mins maxes : list num) (specimen : num)
  : result Z :=
  let* b := bisect_right mins specimen in
  let i := b - 1 in
  let i := if i <? 0 then 0 else i in
  if i <? len mins - 1 then
    let* next_min := py_index mins (i + 1) in
    let* this_max := py_index maxes i in
    if num_ltb (num_sub next_min specimen) (num_sub specimen this_max)
    then Ok (i + 1) else Ok i
  else Ok i.

(** The clamp to the chosen subrange. *)
Definition clamp (mins maxes : list num) (i : Z) (specimen : num)
  : result num :=
  let* lo := py_index mins i in
  if num_ltb specimen lo then Ok lo
  else
    let* hi := py_index maxes i in
    if num_gtb specimen hi then Ok hi else Ok specimen.

(** [Range.__call__] *)
Definition Range_call (r : Range) (specimen : num) : result num :=
  let specimen := py_float specimen in
  let* specimen := quantize r specimen in
  if strict r then
    let* i := select_index (mins r) (maxes r) specimen in
    clamp (mins r) (maxes r) i specimen
  else Ok specimen.




(** [Range.get_min], [Range.get_max] *)
Definition Range_get_min (r : Range) : result num := py_index (mins r) 0.

Definition Range_get_max (r : Range) : result num := py_index (maxes r) (-1).


(** ** The section 3 invariant on subrange lists

    Each [min <= max], the list is sorted by [min], and consecutive
    subranges do not overlap.  Subranges that merely touch are admitted,
    so every list that is pairwise disjoint is covered. *)
Fixpoint subranges_ok (l : list (num * num)) : bool :=
  match l with
  | [] => true
  | (lo, hi) :: rest =>
      num_leb lo hi
      && match rest with
         | [] => true
         | (lo', _) :: _ => num_leb lo lo' && num_leb hi lo'
         end
      && subranges_ok rest
  end.

Definition num_le (a b : num) : Prop := (toQ a <= toQ b)%Q.

Definition is_int (n : num) : bool :=
  match n with Int _ => true | Float _ => false end.

(** ** Notions used in the statements *)

(** A list of numbers in ascending order. *)
Definition ascending (a : list num) : Prop :=
  forall (i j : nat) (x y : num),
    (i <= j)%nat -> nth_error a i = Some x -> nth_error a j = Some y ->
    num_le x y.

(** The index after the bisection and the floor at 0. *)
Definition floor_index (b : Z) : Z := if b - 1 <? 0 then 0 else b - 1.



(** Bounds that are Python ints, and mins that are at least 1. *)
Definition int_bounds (subranges : list (num * num)) : bool :=
  forallb (fun p => is_int (fst p) && is_int (snd p)) subranges.

Definition mins_at_least_one (subranges : list (num * num)) : bool :=
  forallb (fun p => num_leb (Int 1) (fst p)) subranges.

(** Whether [coerce] before the strict branch leaves a number as it is. *)
Definition quantize_fixed (r : Range) (b : num) : bool :=
  match quantize r (py_float b) with
  | Ok q => num_eqb q b
  | _ => false
  end.


(** ** Schemas ([type_to_json]) *)

(** The Python types a [BareType] may wrap. *)
Inductive pytype : Type :=
| py_bool
| py_int_type
| py_float_type
| py_unicode
| py_other (name : string).

Definition pytype_eqb (a b : pytype) : bool :=
  match a, b with
  | py_bool, py_bool => true
  | py_int_type, py_int_type => true
  | py_float_type, py_float_type => true
  | py_unicode, py_unicode => true
  | py_other x, py_other y => String.eqb x y
  | _, _ => false
  end.

Section ValueTypes.
(** [K], [V]: keys and labels of an [Enum]; [O]: objects a schema
    carries as they are (a constant's value, the bulk formats); [S]:
    specimens handed to an [Enum]. *)
Context {K : Type} `{Countable K} {V O S : Type}.

(** Values of the fields of a schema dictionary. *)
Inductive field : Type :=
| FStr (s : string)
| FBool (b : bool)
| FPairs (l : list (num * num))
| FMap (m : gmap K V)
| FObj (o : O).

(** What [type_to_json] returns: [None], a string, or a dictionary
    with string keys. *)
Inductive schema : Type :=
| SNone
| SStr (s : string)
| SDict (d : gmap string field).

(** *** class Enum *)
Record Enum : Type := mkEnum {
  enum_values : gmap K V;
  enum_strict : bool;
  enum_base_type : S -> result K
}.

Definition Enum_init (values : gmap K V) (strict : bool)
    (base_type : S -> result K) : Enum :=
  {| enum_values := values;
     enum_strict := strict;
     enum_base_type := base_type |}.

(** [Enum.__call__] *)
Definition Enum_call (e : Enum) (specimen : S) : result K :=
  let* specimen := enum_base_type e specimen in
  if negb (bool_decide (is_Some (enum_values e !! specimen)))
     && enum_strict e
  then Raise ValueError
  else Ok specimen.

(** *** The classes as one type *)
Inductive ValueType : Type :=
| BareType (python_type : pytype)
| Constant (value : O)
| EnumT (e : Enum)
| RangeT (r : Range)
| Notice (always_visible : bool)
| BulkDataType (info_format array_format : O).

(** [type_to_json] of each class *)
Definition type_to_json (t : ValueType) : schema :=
  match t with
  | BareType python_type =>
      if pytype_eqb python_type py_bool then SStr "boolean" else SNone
  | Constant value =>
      SDict (<["type" := FStr "constant"]> (<["value" := FObj value]> ∅))
  | EnumT e =>
      SDict (<["type" := FStr "enum"]>
             (<["values" := FMap (enum_values e)]> ∅))
  | RangeT r =>
      SDict (<["type" := FStr "range"]>
             (<["subranges" := FPairs (combine (mins r) (maxes r))]>
             (<["logarithmic" := FBool (logarithmic r)]>
             (<["integer" := FBool (integer r)]> ∅))))
  | Notice always_visible =>
      SDict (<["type" := FStr "notice"]>
             (<["always_visible" := FBool always_visible]> ∅))
  | BulkDataType info_format array_format =>
      SDict (<["type" := FStr "bulk_data"]>
             (<["info_format" := FObj info_format]>
             (<["array_format" := FObj array_format]> ∅)))
  end.

(** [Constant.__call__] and [BulkDataType.__call__] *)
Definition Constant_call (value : O) (specimen : S) : result O := Ok value.

Definition BulkDataType_call (specimen : S) : result O := Raise Exception_.

(** The fields a schema has, and whether it is a dictionary with a
    [type] entry. *)
Definition schema_fields (s : schema) : option (gset string) :=
  match s with
  | SDict d => Some (dom d)
  | _ => None
  end.

Definition schema_tag (s : schema) : option field :=
  match s with
  | SDict d => d !! "type"
  | _ => None
  end.
End ValueTypes.

(** The mapping [{'a': 'Alpha', 'b': 'Beta'}]. *)
Definition alpha_beta : gmap string string :=
  <["a" := "Alpha"]> (<["b" := "Beta"]> ∅).

Arguments field : clear implicits.
Arguments schema : clear implicits.
Arguments Enum K {_ _} V S.
Arguments ValueType K {_ _} V O S.

(** ** Equality of Ranges *)

(** [a == b] on lists of numbers: the same length and equal elements. *)
Fixpoint list_eqb (a b : list num) : bool :=
  match a, b with
  | [], [] => true
  | x :: a', y :: b' => num_eqb x y && list_eqb a' b'
  | _, _ => false
  end.

(** [Range.__eq__]; [None] stands for an object whose type is not
    [Range]. *)
Definition Range_eq (self : Range) (other : option Range) : bool :=
  match other with
  | Some other =>
      list_eqb (mins self) (mins other)
      && list_eqb (maxes self) (maxes other)
      && Bool.eqb (strict self) (strict other)
      && Bool.eqb (logarithmic self) (logarithmic other)
      && Bool.eqb (integer self) (integer other)
  | None => false
  end.

(** [Range.__ne__] *)
Definition Range_ne (self : Range) (other : option Range) : bool :=
  negb (Range_eq self other).

(** ** Relating two runs *)



Definition same_value (a b : num) : Prop := (toQ a == toQ b)%Q.

(** The points of a Range: the numbers lying in one of its subranges. *)
Definition in_domain (subranges : list (num * num)) (p : Q) : Prop :=
  exists lo hi, In (lo, hi) subranges /\ (toQ lo <= p)%Q /\ (p <= toQ hi)%Q.

(** The entry of a schema dictionary under a key. *)
Definition schema_lookup {K : Type} `{Countable K} {V O : Type}
    (s : @schema K _ _ V O) (key : string) : option (@field K _ _ V O) :=
  match s with
  | SDict d => d !! key
  | _ => None
  end.

(** Whether two value types belong to the same class. *)
Definition same_class {K : Type} `{Countable K} {V O S : Type}
    (a b : ValueType K V O S) : bool :=
  match a, b with
  | BareType _, BareType _ => true
  | Constant _, Constant _ => true
  | EnumT _, EnumT _ => true
  | RangeT _, RangeT _ => true
  | Notice _, Notice _ => true
  | BulkDataType _ _, BulkDataType _ _ => true
  | _, _ => false
  end.

(** ** [shinysdr/dependencies.py] *)

(** What attribute access and the path functions can raise. *)
Inductive attr_exn : Type :=
| AttributeError
| OtherException (text : string).

(** Outcome of the path functions: a value, an exception, or [NoFuel]
    when the model's recursion was cut short (shown below never to
    happen). *)
Inductive outcome (A : Type) : Type :=
| Got (a : A)
| Failed (e : attr_exn)
| NoFuel.

Arguments Got {A} a.
Arguments Failed {A} e.
Arguments NoFuel {A}.

(** What [import_module(name)] does: it returns the module, raises an
    [ImportError] (with its [message] and its text [str(e)]), or raises
    another exception (with its text). *)
Inductive import_outcome (obj : Type) : Type :=
| Imported (module : obj)
| ImportError (message text : string)
| ImportFailure (text : string).

Arguments Imported {obj} module.
Arguments ImportError {obj} message text.
Arguments ImportFailure {obj} text.

(** [path.split('.', 1)]: the part before the first dot and, when there
    is a dot, the part after it. *)
Fixpoint split_dot (path : string) : string * option string :=
  match path with
  | EmptyString => (EmptyString, None)
  | String c rest =>
      if Ascii.eqb c "."%char then (EmptyString, Some rest)
      else let (first, more) := split_dot rest in (String c first, more)
  end.

(** [s.endswith(suffix)] and [s[n:]] *)
Definition endswith (s suffix : string) : bool :=
  Nat.leb (String.length suffix) (String.length s)
  && String.eqb
       (String.substring (String.length s - String.length suffix)
          (String.length suffix) s)
       suffix.

Definition drop_prefix (n : nat) (s : string) : string :=
  String.substring n (String.length s - n) s.

Definition tab : string := String (Ascii.ascii_of_nat 9) EmptyString.
Definition newline : string := String (Ascii.ascii_of_nat 10) EmptyString.

(** The three sets of a [DependencyTester]; an entry is a pair
    [(dep_name, message)]. *)
Record DependencyTester : Type := mkTester {
  missing : gset (string * string);
  broken : gset (string * string);
  old_ : gset (string * string)
}.

(** [DependencyTester.__init__] *)
Definition DependencyTester_init : DependencyTester :=
  {| missing := ∅; broken := ∅; old_ := ∅ |}.

Definition add_missing (t : DependencyTester) (e : string * string)
  : DependencyTester :=
  {| missing := {[e]} ∪ missing t; broken := broken t; old_ := old_ t |}.

Definition add_broken (t : DependencyTester) (e : string * string)
  : DependencyTester :=
  {| missing := missing t; broken := {[e]} ∪ broken t; old_ := old_ t |}.

Definition add_old (t : DependencyTester) (e : string * string)
  : DependencyTester :=
  {| missing := missing t; broken := broken t; old_ := {[e]} ∪ old_ t |}.

(** [__format_entries].  Python visits a set in an order it does not
    specify; the model visits it in the order of [elements]. *)
Definition format_entries (entries : gset (string * string)) : string :=
  foldl (fun out entry =>
           out +:+ tab +:+ fst entry +:+ "  (Check: " +:+ snd entry
               +:+ ")" +:+ newline)
        EmptyString (elements entries).

(** [DependencyTester.report]; [None] is Python's [None]. *)
Definition report (t : DependencyTester) : option string :=
  let report_text := EmptyString in
  let report_text :=
    if Nat.ltb 0 (size (missing t)) then
      report_text +:+ "The following libraries/programs are missing:"
        +:+ newline +:+ format_entries (missing t)
    else report_text in
  let report_text :=
    if Nat.ltb 0 (size (broken t)) then
      report_text
        +:+ "The following libraries/programs are not installed correctly:"
        +:+ newline +:+ format_entries (broken t)
    else report_text in
  let report_text :=
    if Nat.ltb 0 (size (old_ t)) then
      report_text +:+ "The following libraries/programs are too old:"
        +:+ newline +:+ format_entries (old_ t)
    else report_text in
  if negb (String.eqb report_text EmptyString) then
    Some (report_text +:+ "Please (re)install current versions.")
  else None.

Section Dependencies.
(** The objects of the interpreter, their attribute access
    [getattr(o, name)] (an attribute or the exception raised, the same at
    every call), the importer and the object [None]. *)
Variable obj : Type.
Variable getattr : obj -> string -> attr_exn + obj.
Variable import_module : string -> import_outcome obj.
Variable py_None : obj.

(** [hasattr(o, name)]: whether [getattr] returns. *)
Definition hasattr (o : obj) (name : string) : bool :=
  match getattr o name with
  | inr _ => true
  | inl _ => false
  end.

(** [hasattr_path] *)
Fixpoint hasattr_path_fuel (fuel : nat) (specimen : obj) (path : string)
  : outcome bool :=
  match split_dot path with
  | (_, None) => Got (hasattr specimen path)
  | (first, Some rest) =>
      if hasattr specimen first then
        match getattr specimen first with
        | inr next =>
            match fuel with
            | O => NoFuel
            | S fuel' => hasattr_path_fuel fuel' next rest
            end
        | inl e => Failed e
        end
      else Got false
  end.

Definition hasattr_path (specimen : obj) (path : string) : outcome bool :=
  hasattr_path_fuel (String.length path) specimen path.

(** [getattr_path] *)
Fixpoint getattr_path_fuel (fuel : nat) (specimen : obj) (path : string)
  : outcome obj :=
  match split_dot path with
  | (_, None) =>
      match getattr specimen path with
      | inr o => Got o
      | inl e => Failed e
      end
  | (first, Some rest) =>
      match getattr specimen first with
      | inr next =>
          match fuel with
          | O => NoFuel
          | S fuel' => getattr_path_fuel fuel' next rest
          end
      | inl e => Failed e
      end
  end.

Definition getattr_path (specimen : obj) (path : string) : outcome obj :=
  getattr_path_fuel (String.length path) specimen path.

(** [DependencyTester.check_module]: the new state and the value
    returned. *)
Definition check_module (t : DependencyTester) (module_name dep_name : string)
    (old : bool) : DependencyTester * obj :=
  match import_module module_name with
  | Imported module => (t, module)
  | ImportError msg text =>
      if String.prefix "No module named " msg then
        if endswith module_name
             (drop_prefix (String.length "No module named ") msg)
        then (add_missing t (dep_name, module_name +:+ " not present."),
              py_None)
        else (add_broken t
                (dep_name,
                 module_name +:+ " failed to import (" +:+ text +:+ ")."),
              py_None)
      else (t, py_None)
  | ImportFailure text =>
      (add_broken t
         (dep_name, module_name +:+ " failed to import (" +:+ text +:+ ")."),
       py_None)
  end.

(** [DependencyTester.check_attr] *)
Definition check_attr (t : DependencyTester) (module_name dep_name : string)
    (module : obj) (attr_path : string) (old : bool)
  : outcome DependencyTester :=
  match hasattr_path module attr_path with
  | Got false =>
      let entry :=
        (dep_name, module_name +:+ "." +:+ attr_path +:+ " not present.") in
      if old then Got (add_old t entry) else Got (add_missing t entry)
  | Got true =>
      match getattr_path module attr_path with
      | Got _ => Got t
      | Failed _ =>
          Got (add_broken t
                 (dep_name,
                  "Error checking for " +:+ module_name +:+ "."
                    +:+ attr_path +:+ "."))
      | NoFuel => NoFuel
      end
  | Failed e => Failed e
  | NoFuel => NoFuel
  end.

(** [DependencyTester.check_module_attr] *)
Definition check_module_attr (t : DependencyTester)
    (module_name dep_name attr_path : string) (old : bool)
  : outcome DependencyTester :=
  let (t', module) := check_module t module_name dep_name old in
  check_attr t' module_name dep_name module attr_path true.
End Dependencies.

Arguments hasattr {obj} getattr o name.
Arguments hasattr_path_fuel {obj} getattr fuel specimen path.
Arguments hasattr_path {obj} getattr specimen path.
Arguments getattr_path_fuel {obj} getattr fuel specimen path.
Arguments getattr_path {obj} getattr specimen path.
Arguments check_module {obj} import_module py_None t module_name dep_name old.
Arguments check_attr {obj} getattr t module_name dep_name module attr_path old.
Arguments check_module_attr {obj} getattr import_module py_None t
  module_name dep_name attr_path old.

(** A small interpreter state for examples: object [0] is the module
    [os], which has [path], which has [join]; nothing else exists. *)
Definition example_getattr (o : nat) (name : string) : attr_exn + nat :=
  match o with
  | O => if String.eqb name "path" then inr 1%nat else inl AttributeError
  | S O => if String.eqb name "join" then inr 2%nat else inl AttributeError
  | _ => inl AttributeError
  end.

Definition example_import (name : string) : import_outcome nat :=
  if String.eqb name "os" then Imported 0%nat
  else ImportError ("No module named " +:+ name)
                   ("No module named " +:+ name).

(** * Properties *)

(** ** Comparisons *)

Lemma num_ltb_true a b : num_ltb a b = true <-> (toQ a < toQ b)%Q.
Proof.
  unfold num_ltb. rewrite Qlt_alt.
  destruct (toQ a ?= toQ b)%Q; split; congruence.
Qed.

Lemma num_ltb_false a b : num_ltb a b = false <-> (toQ b <= toQ a)%Q.
Proof.
  split; intros Hc.
  - apply Qnot_lt_le. intros Hlt. apply num_ltb_true in Hlt. congruence.
  - destruct (num_ltb a b) eqn:E; [|reflexivity].
    apply num_ltb_true in E. exfalso. revert E. now apply Qle_not_lt.
Qed.

Lemma num_leb_true a b : num_leb a b = true <-> num_le a b.
Proof.
  unfold num_leb, num_le. rewrite negb_true_iff. apply num_ltb_false.
Qed.

Lemma num_eqb_true a b : num_eqb a b = true <-> (toQ a == toQ b)%Q.
Proof.
  unfold num_eqb. rewrite Qeq_alt.
  destruct (toQ a ?= toQ b)%Q; split; congruence.
Qed.

Lemma num_eqb_refl a : num_eqb a a = true.
Proof. apply num_eqb_true. reflexivity. Qed.

(** ** Indexing *)

Lemma py_index_in_range {A} (l : list A) i :
  0 <= i < len l ->
  exists a, py_index l i = Ok a /\ nth_error l (Z.to_nat i) = Some a.
Proof.
  intros Hi. unfold py_index.
  destruct (i <? 0) eqn:E; [lia|]. rewrite E.
  destruct (nth_error l (Z.to_nat i)) as [a|] eqn:En.
  - eauto.
  - apply nth_error_None in En. unfold len in Hi. lia.
Qed.


Lemma py_index_minus_one {A} (l : list A) :
  l <> [] ->
  exists a, py_index l (-1) = Ok a /\ nth_error l (length l - 1) = Some a.
Proof.
  intros Hne. unfold py_index. change (-1 <? 0) with true. cbv iota.
  assert (0 < len l) by (destruct l; [congruence|unfold len; simpl; lia]).
  destruct (-1 + len l <? 0) eqn:E; [apply Z.ltb_lt in E; lia|].
  replace (Z.to_nat (-1 + len l)) with (length l - 1)%nat
    by (unfold len in *; lia).
  destruct (nth_error l (length l - 1)) as [a|] eqn:En; [eauto|].
  apply nth_error_None in En. unfold len in *. lia.
Qed.

(** ** The binary search *)

(** The loop ends within its window whenever the fuel covers the window;
    no order on the list is needed for that. *)
Lemma bisect_loop_bounds fuel : forall a x lo hi,
  0 <= lo -> lo <= hi -> hi <= len a ->
  (Z.to_nat (hi - lo) <= fuel)%nat ->
  exists p, bisect_loop fuel a x lo hi = Ok p /\ lo <= p <= hi.
Proof.
  induction fuel as [|fuel IH]; intros a x lo hi H0 Hle Hhi Hfuel; simpl.
  - destruct (lo <? hi) eqn:E; [lia|]. exists lo. split; [reflexivity|lia].
  - destruct (lo <? hi) eqn:E.
    2:{ exists lo. split; [reflexivity|lia]. }
    apply Z.ltb_lt in E.
    assert (Hmid : lo <= (lo + hi) / 2 < hi)
      by (split; [apply Z.div_le_lower_bound|apply Z.div_lt_upper_bound]; lia).
    destruct (py_index_in_range a ((lo + hi) / 2)) as (am & -> & _); [lia|].
    simpl. destruct (num_ltb x am).
    + destruct (IH a x lo ((lo + hi) / 2)) as (p & Hp & Hb); try lia.
      exists p. split; [exact Hp|lia].
    + destruct (IH a x ((lo + hi) / 2 + 1) hi) as (p & Hp & Hb); try lia.
      exists p. split; [exact Hp|lia].
Qed.

Lemma bisect_right_bounds a x :
  exists p, bisect_right a x = Ok p /\ 0 <= p <= len a.
Proof.
  unfold bisect_right.
  apply bisect_loop_bounds; unfold len; lia.
Qed.



(** ** Consequences of the subrange invariant *)

Lemma subranges_ok_tail p rest :
  subranges_ok (p :: rest) = true -> subranges_ok rest = true.
Proof.
  destruct p as [lo hi]. simpl. rewrite !andb_true_iff. tauto.
Qed.

Lemma subranges_ok_head lo hi rest :
  subranges_ok ((lo, hi) :: rest) = true -> num_le lo hi.
Proof.
  simpl. rewrite !andb_true_iff. intros [[Hh _] _].
  now apply num_leb_true.
Qed.

(** The head of a good list lies wholly below every later subrange. *)
Lemma subranges_ok_head_below rest : forall lo hi (j : nat) lo' hi',
  subranges_ok ((lo, hi) :: rest) = true ->
  nth_error rest j = Some (lo', hi') ->
  num_le lo lo' /\ num_le hi lo'.
Proof.
  induction rest as [|[lo1 hi1] rest IH]; intros lo hi j lo' hi' Hok Hj.
  - now destruct j.
  - pose proof (subranges_ok_tail _ _ Hok) as Hok'.
    simpl in Hok. rewrite !andb_true_iff, !num_leb_true in Hok.
    destruct Hok as [[_ [Hlo Hhi]] _].
    destruct j as [|j]; simpl in Hj.
    + injection Hj as -> ->. tauto.
    + destruct (IH lo1 hi1 j lo' hi' Hok' Hj) as [H1 _].
      unfold num_le in *. split; lra.
Qed.

Lemma subranges_ok_min_le_max l : forall (i : nat) lo hi,
  subranges_ok l = true -> nth_error l i = Some (lo, hi) -> num_le lo hi.
Proof.
  induction l as [|[lo0 hi0] l IH]; intros i lo hi Hok Hi.
  - now destruct i.
  - destruct i as [|i]; simpl in Hi.
    + injection Hi as -> ->. eapply subranges_ok_head; eauto.
    + eapply IH; eauto. eapply subranges_ok_tail; eauto.
Qed.

Lemma subranges_ok_later l : forall (i j : nat) lo hi lo' hi',
  subranges_ok l = true -> (i < j)%nat ->
  nth_error l i = Some (lo, hi) -> nth_error l j = Some (lo', hi') ->
  num_le lo lo' /\ num_le hi lo'.
Proof.
  induction l as [|[lo0 hi0] l IH]; intros i j lo hi lo' hi' Hok Hij Hi Hj.
  - now destruct i.
  - destruct j as [|j]; [lia|]. simpl in Hj.
    destruct i as [|i]; simpl in Hi.
    + injection Hi as -> ->. eapply subranges_ok_head_below; eauto.
    + eapply (IH i j); eauto; [eapply subranges_ok_tail; eauto|lia].
Qed.

Lemma nth_error_map_Some {A B} (f : A -> B) l (i : nat) b :
  nth_error (map f l) i = Some b ->
  exists a, nth_error l i = Some a /\ f a = b.
Proof.
  rewrite nth_error_map. destruct (nth_error l i) as [a|]; simpl.
  - intros [= <-]. eauto.
  - discriminate.
Qed.

Section Invariant.
Variable subranges : list (num * num).
Hypothesis Hok : subranges_ok subranges = true.

Lemma mins_ascending : ascending (map fst subranges).
Proof.
  intros i j x y Hij Hx Hy.
  apply nth_error_map_Some in Hx as ([lo hi] & Hx & <-).
  apply nth_error_map_Some in Hy as ([lo' hi'] & Hy & <-).
  destruct (Nat.eq_dec i j) as [->|Hne].
  - rewrite Hx in Hy. injection Hy as -> ->. unfold num_le. simpl. lra.
  - assert (Hlt : (i < j)%nat) by lia.
    destruct (subranges_ok_later subranges i j _ _ _ _ Hok Hlt Hx Hy)
      as [Hm _].
    exact Hm.
Qed.

Lemma min_le_max (i : nat) lo hi :
  nth_error (map fst subranges) i = Some lo ->
  nth_error (map snd subranges) i = Some hi ->
  num_le lo hi.
Proof.
  intros Hx Hy.
  apply nth_error_map_Some in Hx as ([lo1 hi1] & Hx & <-).
  apply nth_error_map_Some in Hy as ([lo2 hi2] & Hy & <-).
  rewrite Hx in Hy. injection Hy as -> ->.
  eapply subranges_ok_min_le_max; eauto.
Qed.

Lemma max_le_later_min (i j : nat) hi lo' :
  (i < j)%nat ->
  nth_error (map snd subranges) i = Some hi ->
  nth_error (map fst subranges) j = Some lo' ->
  num_le hi lo'.
Proof.
  intros Hij Hx Hy.
  apply nth_error_map_Some in Hx as ([lo1 hi1] & Hx & <-).
  apply nth_error_map_Some in Hy as ([lo2 hi2] & Hy & <-).
  destruct (subranges_ok_later subranges i j _ _ _ _ Hok Hij Hx Hy)
    as [_ Hm].
  exact Hm.
Qed.

Lemma maxes_ascending : ascending (map snd subranges).
Proof.
  intros i j x y Hij Hx Hy.
  destruct (Nat.eq_dec i j) as [->|Hne].
  - rewrite Hx in Hy. injection Hy as ->. unfold num_le. lra.
  - destruct (nth_error (map fst subranges) j) as [lo'|] eqn:Hlo.
    + assert (num_le x lo') by (apply (max_le_later_min i j); auto; lia).
      assert (num_le lo' y) by (eapply min_le_max; eauto).
      unfold num_le in *. lra.
    + apply nth_error_None in Hlo.
      assert (j < length (map snd subranges))%nat
        by (apply nth_error_Some; congruence).
      assert (length (map fst subranges) = length (map snd subranges))
        by (now rewrite !length_map).
      lia.
Qed.
End Invariant.

(** ** The strict branch *)

Lemma len_map {A B} (f : A -> B) l : len (map f l) = len l.
Proof. unfold len. now rewrite length_map. Qed.

Lemma len_pos {A} (l : list A) : l <> [] -> 0 < len l.
Proof. destruct l; [congruence|]. unfold len. simpl. lia. Qed.

Lemma select_index_unfold mins maxes q b :
  bisect_right mins q = Ok b ->
  select_index mins maxes q =
    if floor_index b <? len mins - 1 then
      let* next_min := py_index mins (floor_index b + 1) in
      let* this_max := py_index maxes (floor_index b) in
      if num_ltb (num_sub next_min q) (num_sub q this_max)
      then Ok (floor_index b + 1) else Ok (floor_index b)
    else Ok (floor_index b).
Proof. intros Hb. unfold select_index. rewrite Hb. reflexivity. Qed.

Lemma floor_index_range b n : 0 <= b <= n -> 0 < n -> 0 <= floor_index b < n.
Proof. unfold floor_index. destruct (b - 1 <? 0) eqn:E; lia. Qed.

Lemma select_index_in_range mins maxes q :
  mins <> [] -> len maxes = len mins ->
  exists i, select_index mins maxes q = Ok i /\ 0 <= i < len mins.
Proof.
  intros Hne Hlen.
  destruct (bisect_right_bounds mins q) as (b & Hb & Hbr).
  pose proof (floor_index_range b (len mins) Hbr (len_pos _ Hne)) as Hf.
  rewrite (select_index_unfold _ maxes _ _ Hb).
  destruct (floor_index b <? len mins - 1) eqn:E.
  - apply Z.ltb_lt in E.
    destruct (py_index_in_range mins (floor_index b + 1)) as (nm & -> & _);
      [lia|].
    destruct (py_index_in_range maxes (floor_index b)) as (tm & -> & _);
      [lia|].
    simpl. destruct (num_ltb _ _); eexists; split; try reflexivity; lia.
  - eexists; split; [reflexivity|lia].
Qed.

Lemma clamp_unfold mins maxes i q lo hi :
  py_index mins i = Ok lo -> py_index maxes i = Ok hi ->
  clamp mins maxes i q =
    Ok (if num_ltb q lo then lo else if num_gtb q hi then hi else q).
Proof.
  intros Hlo Hhi. unfold clamp. rewrite Hlo. simpl.
  destruct (num_ltb q lo); [reflexivity|].
  rewrite Hhi. simpl. now destruct (num_gtb q hi).
Qed.


(** With at least one subrange the strict branch always runs through:
    the bisection returns, the chosen index is in bounds and the clamp
    returns. *)
Lemma strict_branch_returns subranges q :
  subranges <> [] ->
  exists i lo hi,
    select_index (map fst subranges) (map snd subranges) q = Ok i /\
    0 <= i < len subranges /\
    py_index (map fst subranges) i = Ok lo /\
    py_index (map snd subranges) i = Ok hi /\
    nth_error subranges (Z.to_nat i) = Some (lo, hi) /\
    clamp (map fst subranges) (map snd subranges) i q =
      Ok (if num_ltb q lo then lo else if num_gtb q hi then hi else q).
Proof.
  intros Hne.
  destruct (select_index_in_range (map fst subranges) (map snd subranges) q)
    as (i & Hi & Hr).
  { destruct subranges; [congruence|discriminate]. }
  { now rewrite !len_map. }
  rewrite len_map in Hr.
  destruct (py_index_in_range (map fst subranges) i) as (lo & Hlo & Hnlo);
    [now rewrite len_map|].
  destruct (py_index_in_range (map snd subranges) i) as (hi & Hhi & Hnhi);
    [now rewrite len_map|].
  exists i, lo, hi. repeat split; auto; try lia.
  - apply nth_error_map_Some in Hnlo as ([a b] & Ha & <-).
    apply nth_error_map_Some in Hnhi as ([a' b'] & Ha' & <-).
    rewrite Ha in Ha'. injection Ha' as <- <-. exact Ha.
  - now apply clamp_unfold.
Qed.


Lemma Range_call_Ok_inv r x v :
  Range_call r x = Ok v ->
  exists q, quantize r (py_float x) = Ok q /\
    (if strict r
     then exists i, select_index (mins r) (maxes r) q = Ok i /\
                    clamp (mins r) (maxes r) i q = Ok v
     else v = q).
Proof.
  unfold Range_call.
  destruct (quantize r (py_float x)) as [q| |]; simpl; try discriminate.
  intros Hc. exists q. split; [reflexivity|].
  destruct (strict r).
  - destruct (select_index (mins r) (maxes r) q) as [i| |]; simpl in Hc;
      try discriminate.
    eauto.
  - congruence.
Qed.




(** ** The logarithm *)

Lemma Qred_num_pos q : (0 < q)%Q -> exists n, Qnum (Qred q) = Zpos n.
Proof.
  intros Hq. rewrite <- (Qred_correct q) in Hq.
  unfold Qlt in Hq. simpl in Hq.
  destruct (Qnum (Qred q)) as [|n|n]; [lia|eauto|lia].
Qed.

Lemma round_log2_pos q : (0 < q)%Q -> exists k, round_log2 q = Ok k.
Proof.
  intros Hq. unfold round_log2.
  destruct (Qred_num_pos q Hq) as (n & ->). eauto.
Qed.

Lemma round_log2_nonpos q : (q <= 0)%Q -> round_log2 q = Raise ValueError.
Proof.
  intros Hq. rewrite <- (Qred_correct q) in Hq.
  unfold round_log2, Qle in *. simpl in Hq.
  destruct (Qnum (Qred q)) as [|n|n]; [reflexivity|lia|reflexivity].
Qed.

Lemma two_power_pos e : (0 < 2 ^ e)%Q.
Proof. now apply Qpower_0_lt. Qed.


Lemma two_power_plus a b : (2 ^ (a + b) == 2 ^ a * 2 ^ b)%Q.
Proof. now apply Qpower_plus. Qed.

Lemma log2_bracket (p : positive) :
  (2 ^ Z.log2 (Zpos p) <= inject_Z (Zpos p) /\
   inject_Z (Zpos p) < 2 ^ (Z.log2 (Zpos p) + 1))%Q.
Proof.
  destruct (Z.log2_spec (Zpos p)) as [Hlo Hhi]; [lia|].
  pose proof (Z.log2_nonneg (Zpos p)) as Hn.
  split.
  - rewrite <- (Zpower_Qpower 2) by lia. now rewrite <- Zle_Qle.
  - rewrite <- (Zpower_Qpower 2) by lia. rewrite <- Zlt_Qlt. lia.
Qed.

Lemma below_test (a b : positive) e :
  (if 0 <=? e then Zpos a <? Zpos b * 2 ^ e
   else Zpos a * 2 ^ (- e) <? Zpos b) = true <->
  (inject_Z (Zpos a) < inject_Z (Zpos b) * 2 ^ e)%Q.
Proof.
  destruct (0 <=? e) eqn:E.
  - apply Z.leb_le in E. rewrite Z.ltb_lt, Zlt_Qlt.
    rewrite inject_Z_mult, (Zpower_Qpower 2) by lia. reflexivity.
  - apply Z.leb_gt in E. rewrite Z.ltb_lt, Zlt_Qlt.
    rewrite inject_Z_mult, (Zpower_Qpower 2) by lia.
    pose proof (two_power_pos e) as He.
    pose proof (two_power_plus (- e) e) as Hp.
    replace (- e + e) with 0 in Hp by lia. change (2 ^ 0)%Q with 1%Q in Hp.
    pose proof (two_power_pos (- e)) as He'.
    set (A := inject_Z (Z.pos a)) in *. set (B := inject_Z (Z.pos b)) in *.
    assert (HA : (A == A * 2 ^ (- e) * 2 ^ e)%Q)
      by (rewrite <- Qmult_assoc, <- Hp; ring).
    assert (HB : (B == B * 2 ^ e * 2 ^ (- e))%Q)
      by (rewrite <- Qmult_assoc, (Qmult_comm (2 ^ e)), <- Hp; ring).
    split; intros Hlt.
    + rewrite HA. apply Qmult_lt_compat_r; assumption.
    + rewrite HB. apply Qmult_lt_compat_r; assumption.
Qed.

Lemma log2_floor_frac_spec (a b : positive) :
  (2 ^ log2_floor_frac a b * inject_Z (Zpos b) <= inject_Z (Zpos a) /\
   inject_Z (Zpos a) < 2 ^ (log2_floor_frac a b + 1) * inject_Z (Zpos b))%Q.
Proof.
  unfold log2_floor_frac.
  destruct (log2_bracket a) as [Ha1 Ha2].
  destruct (log2_bracket b) as [Hb1 Hb2].
  set (la := Z.log2 (Zpos a)) in *. set (lb := Z.log2 (Zpos b)) in *.
  set (A := inject_Z (Z.pos a)) in *. set (B := inject_Z (Z.pos b)) in *.
  pose proof (below_test a b (la - lb)) as Ht. fold A B in Ht.
  destruct (if 0 <=? la - lb then _ else _).
  - assert (Hlt : (A < B * 2 ^ (la - lb))%Q) by now apply Ht.
    replace (la - lb - 1 + 1) with (la - lb) by lia.
    split; [|now rewrite Qmult_comm].
    (* B < 2^(lb+1), so B * 2^(e-1) < 2^(lb+1) * 2^(e-1) = 2^la <= A *)
    apply Qle_trans with (2 ^ la)%Q; [|exact Ha1].
    replace la with ((la - lb - 1) + (lb + 1)) at 2 by lia.
    rewrite two_power_plus.
    apply Qmult_le_l; [apply two_power_pos|]. now apply Qlt_le_weak.
  - assert (Hge : (B * 2 ^ (la - lb) <= A)%Q).
    { apply Qnot_lt_le. intros Hlt. apply Ht in Hlt. discriminate. }
    split; [now rewrite Qmult_comm|].
    apply Qlt_le_trans with (2 ^ (la + 1))%Q; [exact Ha2|].
    replace (la + 1) with ((la - lb + 1) + lb) by lia.
    rewrite two_power_plus.
    apply Qmult_le_l; [apply two_power_pos|]. exact Hb1.
Qed.

(** [round_log2 x = k] places [log2 x] strictly within one half of [k]:
    [2^(2k-1) <= x^2 < 2^(2k+1)]. *)
Lemma round_log2_spec x k :
  round_log2 x = Ok k ->
  (2 ^ (2 * k - 1) <= x * x /\ x * x < 2 ^ (2 * k + 1))%Q.
Proof.
  unfold round_log2.
  assert (Hx : (x * x == Qred x * Qred x)%Q) by now rewrite Qred_correct.
  destruct (Qred x) as [n d]. cbn [Qnum Qden].
  destruct n as [|n|n]; try discriminate.
  intros [= <-].
  destruct (log2_floor_frac_spec (n * n) (d * d)) as [Hlo Hhi].
  set (L := log2_floor_frac (n * n) (d * d)) in *.
  assert (Hk : 2 * ((L + 1) / 2) - 1 <= L /\ L + 1 <= 2 * ((L + 1) / 2) + 1).
  { pose proof (Z.div_mod (L + 1) 2) as Hd.
    pose proof (Z.mod_pos_bound (L + 1) 2) as Hm. lia. }
  assert (Hsq : (x * x ==
                 inject_Z (Zpos (n * n)) / inject_Z (Zpos (d * d)))%Q).
  { rewrite Hx, <- Qmake_Qdiv. reflexivity. }
  assert (HD : (0 < inject_Z (Zpos (d * d)))%Q) by reflexivity.
  rewrite Hsq. split.
  - apply Qle_trans with (2 ^ L)%Q.
    + apply Qpower_le_compat_l; [lia|discriminate].
    + now apply Qle_shift_div_l.
  - apply Qlt_le_trans with (2 ^ (L + 1))%Q.
    + now apply Qlt_shift_div_r.
    + apply Qpower_le_compat_l; [lia|discriminate].
Qed.

(** No other integer has that property, so for a positive [x],
    [round_log2] is the rounding of the logarithm whatever the rule for
    halves. *)
Lemma round_log2_unique x k :
  (0 < x)%Q ->
  (2 ^ (2 * k - 1) <= x * x /\ x * x < 2 ^ (2 * k + 1))%Q ->
  round_log2 x = Ok k.
Proof.
  intros Hpos [Hlo Hhi].
  destruct (round_log2_pos x Hpos) as (k' & Hk').
  destruct (round_log2_spec x k' Hk') as [Hlo' Hhi'].
  assert (2 * k - 1 < 2 * k' + 1).
  { apply (Qpower_lt_compat_l_inv 2); [|reflexivity].
    eapply Qle_lt_trans; eauto. }
  assert (2 * k' - 1 < 2 * k + 1).
  { apply (Qpower_lt_compat_l_inv 2); [|reflexivity].
    eapply Qle_lt_trans; eauto. }
  rewrite Hk'. f_equal. lia.
Qed.

Lemma num_leb_zero x : num_leb x (Int 0) = true <-> (toQ x <= 0)%Q.
Proof. rewrite num_leb_true. unfold num_le. simpl. reflexivity. Qed.

Lemma num_leb_zero_false x : num_leb x (Int 0) = false <-> (0 < toQ x)%Q.
Proof.
  unfold num_leb. rewrite negb_false_iff, num_ltb_true. simpl. reflexivity.
Qed.

(** ** Bounds, selection and clamping *)

(** C10. With at least one subrange, whatever the flags and the
    (quantized) specimen, the bisection returns, the index [i] chosen by
    the strict branch satisfies [0 <= i < len(subranges)], and the
    look-ahead at [i + 1], the read of [maxes] and the two reads of the
    clamp are all in bounds, so the branch returns a value.  With no
    subrange at all, [coerce] under [strict=True], [get_min] and [get_max]
    raise [IndexError]. *)
Theorem strict_index_in_bounds :
  (forall subranges lg ig q,
     subranges <> [] ->
     let r := Range_init subranges true lg ig in
     exists b i lo hi v,
       bisect_right (mins r) q = Ok b /\
       select_index (mins r) (maxes r) q = Ok i /\
       0 <= i < len subranges /\
       (floor_index b < len (mins r) - 1 ->
        exists nm tm,
          py_index (mins r) (floor_index b + 1) = Ok nm /\
          py_index (maxes r) (floor_index b) = Ok tm) /\
       py_index (mins r) i = Ok lo /\
       py_index (maxes r) i = Ok hi /\
       clamp (mins r) (maxes r) i q = Ok v) /\
  (forall lg ig x,
     Range_call (Range_init [] true lg ig) x = Raise IndexError) /\
  (forall s lg ig,
     Range_get_min (Range_init [] s lg ig) = Raise IndexError /\
     Range_get_max (Range_init [] s lg ig) = Raise IndexError).
Proof.
  split; [|split].
  - intros subranges lg ig q Hne r. simpl.
    destruct (bisect_right_bounds (map fst subranges) q) as (b & Hb & Hbr).
    destruct (strict_branch_returns subranges q Hne)
      as (i & lo & hi & Hi & Hr & Hlo & Hhi & _ & Hc).
    exists b, i, lo, hi. eexists. repeat split; eauto; try lia.
    intros Hlt. rewrite len_map in *.
    assert (0 <= floor_index b < len subranges)
      by (apply floor_index_range; [lia|now apply len_pos]).
    destruct (py_index_in_range (map fst subranges) (floor_index b + 1))
      as (nm & Hnm & _); [rewrite len_map; lia|].
    destruct (py_index_in_range (map snd subranges) (floor_index b))
      as (tm & Htm & _); [rewrite len_map; lia|].
    eauto.
  - intros lg ig x. unfold Range_call, quantize. simpl.
    destruct ig; [|reflexivity]. destruct lg; [|reflexivity].
    destruct (num_leb (py_float x) (Int 0)) eqn:E; [reflexivity|].
    apply num_leb_zero_false in E.
    destruct (round_log2_pos _ E) as (k & Hk). simpl in Hk |- *.
    rewrite Hk. reflexivity.
  - intros s lg ig. split; reflexivity.
Qed.

(** A concrete instance: the two-subrange example at specimen 16. *)
Lemma strict_index_in_bounds_witness :
  [(Int 0, Int 10); (Int 20, Int 30)] <> [] /\
  exists b i lo hi v,
    bisect_right [Int 0; Int 20] (Int 16) = Ok b /\
    select_index [Int 0; Int 20] [Int 10; Int 30] (Int 16) = Ok i /\
    0 <= i < 2 /\
    (floor_index b < 2 - 1 ->
     exists nm tm,
       py_index [Int 0; Int 20] (floor_index b + 1) = Ok nm /\
       py_index [Int 10; Int 30] (floor_index b) = Ok tm) /\
    py_index [Int 0; Int 20] i = Ok lo /\
    py_index [Int 10; Int 30] i = Ok hi /\
    clamp [Int 0; Int 20] [Int 10; Int 30] i (Int 16) = Ok v.
Proof.
  split; [discriminate|].
  apply (proj1 strict_index_in_bounds
           [(Int 0, Int 10); (Int 20, Int 30)] false true (Int 16)).
  discriminate.
Defined.





(** C6. For [Range([(1,1024)], strict=True, integer=True,
    logarithmic=True)]: [coerce(100) == 128], the power of two nearest in
    the logarithm, and [coerce(0) == 1], the non-positive specimen being
    replaced by [mins[0]] before the logarithm is taken. *)
Theorem logarithmic_examples :
  let r := Range_init [(Int 1, Int 1024)] true true true in
  Range_call r (Int 100) = Ok (Int 128) /\
  round_log2 (toQ (Int 100)) = Ok 7 /\
  Range_call r (Int 0) = Ok (Int 1) /\
  num_leb (py_float (Int 0)) (Int 0) = true /\
  Range_get_min r = Ok (Int 1).
Proof. repeat split; reflexivity. Qed.

(** ** When [coerce] returns *)

Lemma quantize_returns_iff subranges s lg ig x :
  (exists q, quantize (Range_init subranges s lg ig) x = Ok q) <->
  (ig = true -> lg = true ->
   (0 < toQ x)%Q \/
   exists lo hi rest, subranges = (lo, hi) :: rest /\ (0 < toQ lo)%Q).
Proof.
  unfold quantize. simpl.
  destruct ig; [|split; [discriminate|eauto]].
  destruct lg; [|split; [discriminate|eauto]].
  destruct (num_leb x (Int 0)) eqn:E.
  - apply num_leb_zero in E.
    destruct subranges as [|[lo hi] rest].
    + split.
      * intros (q & Hq). discriminate.
      * intros Hc. destruct (Hc eq_refl eq_refl) as [Hx|(? & ? & ? & ? & _)];
          [lra|discriminate].
    + change (py_index (map fst ((lo, hi) :: rest)) 0) with (Ok lo).
      cbn [bind]. split.
      * intros (q & Hq) _ _. right. exists lo, hi, rest.
        split; [reflexivity|].
        destruct (Qlt_le_dec 0 (toQ lo)) as [Hp|Hn]; [exact Hp|].
        rewrite (round_log2_nonpos _ Hn) in Hq. discriminate.
      * intros Hc.
        destruct (Hc eq_refl eq_refl) as [Hx|(? & ? & ? & [= <- _ _] & Hp)];
          [lra|].
        destruct (round_log2_pos _ Hp) as (k & ->). simpl. eauto.
  - apply num_leb_zero_false in E. cbn [bind].
    destruct (round_log2_pos _ E) as (k & ->). simpl.
    split; eauto.
Qed.



(** ** [shifted_by] *)







(** ** Enum *)

(** C8. For an Enum and a specimen that [base_type] converts to [k]:
    with [strict=False], [coerce] returns [k] whether or not [k] is a key
    of [values]; with [strict=True], [coerce] raises [ValueError] exactly
    when [k] is not a key of [values], and returns [k] otherwise. *)
Theorem Enum_call_strictness {K : Type} `{Countable K} {V S : Type}
    (values : gmap K V) (strict : bool) (base_type : S -> result K)
    (specimen : S) (k : K) :
  base_type specimen = Ok k ->
  let e := Enum_init values strict base_type in
  (strict = false -> Enum_call e specimen = Ok k) /\
  (strict = true ->
   (Enum_call e specimen = Raise ValueError <-> values !! k = None) /\
   (is_Some (values !! k) -> Enum_call e specimen = Ok k)).
Proof.
  intros Hk e. unfold Enum_call, e. simpl. rewrite Hk. simpl.
  split.
  - intros ->. now rewrite andb_false_r.
  - intros ->. rewrite andb_true_r.
    destruct (values !! k) as [v|] eqn:Hv.
    + rewrite bool_decide_eq_true_2 by eauto. simpl.
      split; [split; discriminate|reflexivity].
    + rewrite bool_decide_eq_false_2 by (intros [? ?]; discriminate). simpl.
      split; [split; reflexivity|]. intros [? ?]. discriminate.
Qed.

(** The Enum of the specification's scenario: ['c'] is rejected when
    strict. *)
Lemma Enum_call_strictness_witness :
  (true = false ->
   Enum_call (Enum_init alpha_beta true (fun s : string => Ok s)) "c"
   = Ok "c") /\
  (true = true ->
   (Enum_call (Enum_init alpha_beta true (fun s : string => Ok s)) "c"
    = Raise ValueError <-> alpha_beta !! "c" = None) /\
   (is_Some (alpha_beta !! "c") ->
    Enum_call (Enum_init alpha_beta true (fun s : string => Ok s)) "c"
    = Ok "c")).
Proof.
  apply (Enum_call_strictness alpha_beta true (fun s : string => Ok s)
           "c" "c").
  reflexivity.
Defined.

(** ** Schemas *)

Section Schemas.
Context {K : Type} `{Countable K} {V O S : Type}.

(** C9, as amended.  [type_to_json] of Constant, Enum, Range, Notice and
    the bulk descriptor is a dictionary holding [type] and exactly the
    fields of the table; for the wrapper of [bool] it is the bare string
    ['boolean'], not a dictionary, and so has no [type] field. *)
Theorem type_to_json_fields :
  type_to_json (BareType py_bool : ValueType K V O S) = SStr "boolean" /\
  (forall value : O,
     exists d, type_to_json (Constant value : ValueType K V O S) = SDict d /\
       d !! "type" = Some (FStr "constant") /\
       d !! "value" = Some (FObj value) /\
       dom d = {["type"; "value"]}) /\
  (forall e : Enum K V S,
     exists d, type_to_json (EnumT e : ValueType K V O S) = SDict d /\
       d !! "type" = Some (FStr "enum") /\
       d !! "values" = Some (FMap (enum_values e)) /\
       dom d = {["type"; "values"]}) /\
  (forall r : Range,
     exists d, type_to_json (RangeT r : ValueType K V O S) = SDict d /\
       d !! "type" = Some (FStr "range") /\
       d !! "subranges" = Some (FPairs (combine (mins r) (maxes r))) /\
       d !! "logarithmic" = Some (FBool (logarithmic r)) /\
       d !! "integer" = Some (FBool (integer r)) /\
       dom d = {["type"; "subranges"; "logarithmic"; "integer"]}) /\
  (forall always_visible : bool,
     exists d,
       type_to_json (Notice always_visible : ValueType K V O S) = SDict d /\
       d !! "type" = Some (FStr "notice") /\
       d !! "always_visible" = Some (FBool always_visible) /\
       dom d = {["type"; "always_visible"]}) /\
  (forall info_format array_format : O,
     exists d,
       type_to_json (BulkDataType info_format array_format : ValueType K V O S)
         = SDict d /\
       d !! "type" = Some (FStr "bulk_data") /\
       d !! "info_format" = Some (FObj info_format) /\
       d !! "array_format" = Some (FObj array_format) /\
       dom d = {["type"; "info_format"; "array_format"]}).
Proof.
  split; [reflexivity|].
  repeat split; intros; eexists; (split; [reflexivity|]);
    repeat split; try (by simplify_map_eq);
    rewrite !dom_insert_L, dom_empty_L; set_solver.
Qed.
End Schemas.

(** The wrapper of [bool] describes itself by a string: there is no
    dictionary and no [type] field in it. *)
Lemma boolean_schema_has_no_type_field :
  type_to_json (BareType py_bool : ValueType string string num string)
    = SStr "boolean" /\
  schema_tag
    (type_to_json (BareType py_bool : ValueType string string num string))
    = None /\
  ~ exists d,
      type_to_json (BareType py_bool : ValueType string string num string)
        = SDict d /\ is_Some (d !! "type").
Proof.
  split; [reflexivity|]. split; [reflexivity|].
  intros (d & Hd & _). discriminate.
Qed.

(** ** Quantization *)

Lemma py_int_inject_Z z : py_int (inject_Z z) = z.
Proof. unfold py_int. simpl. apply Z.quot_1_r. Qed.

Lemma int_round q : py_int (py_round q) = round_half_away q.
Proof. apply py_int_inject_Z. Qed.

Lemma round_half_away_comp p q :
  (p == q)%Q -> round_half_away p = round_half_away q.
Proof.
  intros Heq. unfold round_half_away.
  assert (Hb : Qle_bool 0 p = Qle_bool 0 q).
  { destruct (Qle_bool 0 p) eqn:E1, (Qle_bool 0 q) eqn:E2; auto.
    - apply Qle_bool_iff in E1. rewrite Heq in E1.
      apply Qle_bool_iff in E1. congruence.
    - apply Qle_bool_iff in E2. rewrite <- Heq in E2.
      apply Qle_bool_iff in E2. congruence. }
  rewrite Hb. destruct (Qle_bool 0 q).
  - apply Qfloor_comp. now rewrite Heq.
  - f_equal. apply Qfloor_comp. now rewrite Heq.
Qed.

Lemma round_half_away_Z z : round_half_away (inject_Z z) = z.
Proof.
  unfold round_half_away.
  assert (Hf : forall y, Qfloor (inject_Z y + (1 # 2)) = y).
  { intros y. unfold Qfloor, Qplus, inject_Z. simpl.
    rewrite Z.div_add_l by lia. change (y + 0 = y). lia. }
  destruct (Qle_bool 0 (inject_Z z)); [apply Hf|].
  rewrite <- inject_Z_opp, Hf. lia.
Qed.

Lemma quantize_integer subranges s x :
  quantize (Range_init subranges s false true) x
  = Ok (Int (round_half_away (toQ x))).
Proof. unfold quantize. simpl. now rewrite int_round. Qed.

Lemma pow2_cases k :
  (0 <= k /\ pow2 k = Int (2 ^ k)) \/
  (k < 0 /\ exists p, pow2 k = Float (1 # p) /\ (2 <= Zpos p)).
Proof.
  unfold pow2. destruct (0 <=? k) eqn:E.
  - left. apply Z.leb_le in E. auto.
  - right. apply Z.leb_gt in E. split; [lia|].
    eexists. split; [reflexivity|].
    assert (2 ^ 1 <= 2 ^ (- k)) by (apply Z.pow_le_mono_r; lia).
    rewrite Z2Pos.id; lia.
Qed.

Lemma pow2_positive k : (0 < toQ (pow2 k))%Q.
Proof.
  destruct (pow2_cases k) as [[Hk ->]|[Hk (p & -> & _)]]; simpl.
  - unfold Qlt. simpl. assert (0 < 2 ^ k) by (apply Z.pow_pos_nonneg; lia).
    lia.
  - reflexivity.
Qed.

Lemma pow2_float_below_one k q :
  pow2 k = Float q -> (q < 1)%Q.
Proof.
  destruct (pow2_cases k) as [[Hk ->]|[Hk (p & -> & Hp)]]; [discriminate|].
  intros [= <-]. unfold Qlt. simpl. lia.
Qed.

Lemma log2_floor_frac_nonneg a b :
  Zpos b <= Zpos a -> 0 <= log2_floor_frac a b.
Proof.
  intros Hle. unfold log2_floor_frac.
  assert (He : Z.log2 (Zpos b) <= Z.log2 (Zpos a))
    by (apply Z.log2_le_mono; lia).
  set (e := Z.log2 (Zpos a) - Z.log2 (Zpos b)).
  assert (0 <= e) by (unfold e; lia).
  destruct (0 <=? e) eqn:E0; [|apply Z.leb_gt in E0; lia].
  destruct (Zpos a <? Zpos b * 2 ^ e) eqn:Eb; [|lia].
  apply Z.ltb_lt in Eb.
  destruct (Z.eq_dec e 0) as [Hz|Hz]; [|lia].
  rewrite Hz in Eb. simpl in Eb. lia.
Qed.

Lemma round_log2_nonneg q k :
  (1 <= q)%Q -> round_log2 q = Ok k -> 0 <= k.
Proof.
  intros Hq. rewrite <- (Qred_correct q) in Hq.
  unfold round_log2.
  destruct (Qred q) as [n d]. unfold Qle in Hq. simpl in Hq |- *.
  destruct n as [|n|n]; try discriminate.
  intros [= <-].
  assert (0 <= log2_floor_frac (n * n) (d * d)).
  { apply log2_floor_frac_nonneg. rewrite !Pos2Z.inj_mul. nia. }
  apply Z.div_pos; lia.
Qed.

Lemma quantize_log_form subranges s x q :
  quantize (Range_init subranges s true true) x = Ok q ->
  exists k, q = pow2 k.
Proof.
  unfold quantize. simpl.
  destruct (if num_leb x (Int 0) then _ else _) as [y| |]; simpl;
    try discriminate.
  destruct (round_log2 (toQ y)) as [k| |]; simpl; try discriminate.
  intros [= <-]. eauto.
Qed.

Lemma clamp_cases lo hi q :
  let v := if num_ltb q lo then lo else if num_gtb q hi then hi else q in
  v = lo \/ v = hi \/ (v = q /\ num_le lo q).
Proof.
  cbv zeta. destruct (num_ltb q lo) eqn:E; [auto|].
  apply num_ltb_false in E.
  destruct (num_gtb q hi); auto.
Qed.

(** The strict branch on int bounds yields an int as soon as the
    quantized specimen is an int or lies below every min. *)
Lemma strict_branch_int subranges q :
  subranges <> [] -> int_bounds subranges = true ->
  (is_int q = true \/
   forall lo hi, In (lo, hi) subranges -> (toQ q < toQ lo)%Q) ->
  exists i z,
    select_index (map fst subranges) (map snd subranges) q = Ok i /\
    clamp (map fst subranges) (map snd subranges) i q = Ok (Int z).
Proof.
  intros Hne Hint Hq.
  destruct (strict_branch_returns subranges q Hne)
    as (i & lo & hi & Hi & _ & _ & _ & Hnth & Hc).
  apply nth_error_In in Hnth.
  unfold int_bounds in Hint. rewrite forallb_forall in Hint.
  specialize (Hint _ Hnth). simpl in Hint.
  apply andb_true_iff in Hint as [Hlo Hhi].
  exists i. rewrite Hc.
  destruct (clamp_cases lo hi q) as [->|[->|[-> Hle]]].
  - destruct lo; [eauto|discriminate].
  - destruct hi; [eauto|discriminate].
  - destruct Hq as [Hq|Hq].
    + destruct q; [eauto|discriminate].
    + specialize (Hq _ _ Hnth). unfold num_le in Hle. lra.
Qed.

(** C4, as amended.  Quantization is applied before the strict branch.
    With [integer=True], [coerce] returns a Python int
    - when [strict] and [logarithmic] are off (the int is
      [int(round(specimen))]);
    - when [strict] is off, [logarithmic] is on and the specimen is at
      least 1 (the int is a power of two);
    - when [strict] is on, provided there is a subrange, every bound is a
      Python int and, if [logarithmic] is on, every min is at least 1.
    With [integer=False] and [strict] off the result is the float
    [float(specimen)]; with [strict] on it is that float or the subrange
    bound it was clamped to, as the bound was given. *)
Theorem quantized_result_type :
  (forall r x,
     Range_call r x =
     let* q := quantize r (py_float x) in
     if strict r then
       let* i := select_index (mins r) (maxes r) q in
       clamp (mins r) (maxes r) i q
     else Ok q) /\
  (forall subranges x,
     Range_call (Range_init subranges false false true) x
     = Ok (Int (round_half_away (toQ x)))) /\
  (forall subranges x,
     (1 <= toQ x)%Q ->
     exists k, 0 <= k /\
       Range_call (Range_init subranges false true true) x
       = Ok (Int (2 ^ k))) /\
  (forall subranges lg x,
     subranges <> [] -> int_bounds subranges = true ->
     (lg = true -> mins_at_least_one subranges = true) ->
     exists z, Range_call (Range_init subranges true lg true) x
               = Ok (Int z)) /\
  (forall subranges lg x,
     Range_call (Range_init subranges false lg false) x
     = Ok (Float (toQ x))) /\
  (forall subranges lg x v,
     Range_call (Range_init subranges true lg false) x = Ok v ->
     v = Float (toQ x) \/ In v (map fst subranges ++ map snd subranges)).
Proof.
  split; [reflexivity|].
  split; [|split; [|split; [|split; [reflexivity|]]]].
  - intros subranges x. unfold Range_call.
    now rewrite quantize_integer.
  - intros subranges x Hx.
    assert (Hpos : (0 < toQ x)%Q) by lra.
    destruct (round_log2_pos _ Hpos) as (k & Hk).
    exists k. split; [eapply round_log2_nonneg; eauto|].
    unfold Range_call, quantize. simpl.
    rewrite (proj2 (num_leb_zero_false (py_float x)) Hpos). simpl.
    rewrite Hk. simpl.
    destruct (pow2_cases k) as [[_ ->]|[Hneg _]]; [reflexivity|].
    apply round_log2_nonneg in Hk; [lia|exact Hx].
  - intros subranges lg x Hne Hint Hmin.
    assert (Hq : exists q,
               quantize (Range_init subranges true lg true) (py_float x)
               = Ok q /\
               (is_int q = true \/
                forall lo hi, In (lo, hi) subranges -> (toQ q < toQ lo)%Q)).
    { destruct lg.
      - specialize (Hmin eq_refl).
        unfold mins_at_least_one in Hmin. rewrite forallb_forall in Hmin.
        assert (Hone : forall lo hi, In (lo, hi) subranges ->
                                     (1 <= toQ lo)%Q).
        { intros lo hi Hin. specialize (Hmin _ Hin). simpl in Hmin.
          now apply num_leb_true in Hmin. }
        destruct (proj2 (quantize_returns_iff subranges true true true
                           (py_float x))) as (q & Hq).
        { intros _ _. right.
          destruct subranges as [|[lo hi] rest]; [congruence|].
          exists lo, hi, rest. split; [reflexivity|].
          assert (1 <= toQ lo)%Q by (apply (Hone lo hi); now left). lra. }
        exists q. split; [exact Hq|].
        destruct (quantize_log_form _ _ _ _ Hq) as (k & ->).
        destruct (pow2 k) as [z|f] eqn:Ek; [now left|right].
        intros lo hi Hin. apply pow2_float_below_one in Ek.
        specialize (Hone _ _ Hin). simpl. lra.
      - rewrite quantize_integer. eexists. split; [reflexivity|now left]. }
    destruct Hq as (q & Hq & Hcase).
    destruct (strict_branch_int subranges q Hne Hint Hcase)
      as (i & z & Hi & Hc).
    exists z. unfold Range_call. rewrite Hq. simpl. rewrite Hi. exact Hc.
  - intros subranges lg x v Hv.
    apply Range_call_Ok_inv in Hv as (q & Hq & i & Hi & Hc).
    simpl in Hq, Hi, Hc. injection Hq as <-.
    assert (Hne : subranges <> []).
    { intros ->. simpl in Hi, Hc. injection Hi as <-. discriminate. }
    destruct (strict_branch_returns subranges (py_float x) Hne)
      as (i' & lo & hi & Hi' & _ & _ & _ & Hnth & Hc').
    rewrite Hi in Hi'. injection Hi' as <-.
    rewrite Hc in Hc'. injection Hc' as ->.
    apply nth_error_In in Hnth.
    destruct (clamp_cases lo hi (py_float x)) as [->|[->|[-> _]]].
    + right. apply in_or_app. left.
      change lo with (fst (lo, hi)). now apply in_map.
    + right. apply in_or_app. right.
      change hi with (snd (lo, hi)). now apply in_map.
    + now left.
Qed.

Lemma quantized_result_type_witness :
  [(Int 1, Int 1024)] <> [] /\
  int_bounds [(Int 1, Int 1024)] = true /\
  mins_at_least_one [(Int 1, Int 1024)] = true /\
  exists z,
    Range_call (Range_init [(Int 1, Int 1024)] true true true)
      (Float (3 # 10)) = Ok (Int z).
Proof.
  split; [discriminate|]. split; [reflexivity|]. split; [reflexivity|].
  apply (proj1 (proj2 (proj2 (proj2 quantized_result_type)))
           [(Int 1, Int 1024)] true (Float (3 # 10)));
    [discriminate|reflexivity|reflexivity].
Defined.

(** An [integer=True] Range whose result is not an integer:
    [Range([(0.5, 10.5)], strict=True, integer=True)] sends [0] to its
    lower bound [0.5]. *)
Lemma integer_range_returns_half :
  subranges_ok [(Float (1 # 2), Float (21 # 2))] = true /\
  Range_call (Range_init [(Float (1 # 2), Float (21 # 2))] true false true)
    (Int 0) = Ok (Float (1 # 2)) /\
  is_int (Float (1 # 2)) = false /\
  ~ exists z : Z, (toQ (Float (1 # 2)) == inject_Z z)%Q.
Proof.
  split; [reflexivity|]. split; [reflexivity|]. split; [reflexivity|].
  intros (z & Hz). unfold Qeq in Hz. simpl in Hz. lia.
Qed.

(** ** Quantizing twice *)


Lemma log2_floor_frac_pow2 (n d : positive) a b :
  0 <= a -> 0 <= b -> Zpos n = 2 ^ a -> Zpos d = 2 ^ b ->
  log2_floor_frac n d = a - b.
Proof.
  intros Ha Hb Hn Hd. unfold log2_floor_frac.
  rewrite Hn, Hd, !Z.log2_pow2 by lia.
  destruct (0 <=? a - b) eqn:E.
  - apply Z.leb_le in E.
    rewrite <- Z.pow_add_r by lia.
    replace (b + (a - b)) with a by lia.
    now rewrite Z.ltb_irrefl.
  - apply Z.leb_gt in E.
    rewrite <- Z.pow_add_r by lia.
    replace (a + - (a - b)) with b by lia.
    now rewrite Z.ltb_irrefl.
Qed.

Lemma half_of_odd k : (2 * k + 1) / 2 = k.
Proof.
  replace (2 * k + 1) with (k * 2 + 1) by lia.
  rewrite Z.div_add_l by lia. change (k + 0 = k). lia.
Qed.

Lemma round_log2_frac_pow2 (n d : positive) a b :
  0 <= a -> 0 <= b -> Zpos n = 2 ^ a -> Zpos d = 2 ^ b ->
  Z.gcd (Zpos n) (Zpos d) = 1 ->
  round_log2 (Zpos n # d) = Ok (a - b).
Proof.
  intros Ha Hb Hn Hd Hg. unfold round_log2.
  rewrite Qred_identity by exact Hg.
  cbn [Qnum Qden].
  rewrite (log2_floor_frac_pow2 (n * n) (d * d) (a + a) (b + b));
    try lia.
  - f_equal. replace (a + a - (b + b) + 1) with (2 * (a - b) + 1) by lia.
    apply half_of_odd.
  - rewrite Pos2Z.inj_mul, Hn, Z.pow_add_r by lia. reflexivity.
  - rewrite Pos2Z.inj_mul, Hd, Z.pow_add_r by lia. reflexivity.
Qed.

Lemma round_log2_pow2 k : round_log2 (toQ (pow2 k)) = Ok k.
Proof.
  unfold pow2. destruct (0 <=? k) eqn:E.
  - apply Z.leb_le in E.
    assert (Hp : 0 < 2 ^ k) by (apply Z.pow_pos_nonneg; lia).
    destruct (2 ^ k) as [|n|n] eqn:En; try lia.
    replace (Ok k) with (Ok (k - 0)) by (f_equal; lia).
    apply (round_log2_frac_pow2 n 1 k 0); auto; try lia.
    apply Z.gcd_1_r.
  - apply Z.leb_gt in E.
    assert (Hp : 0 < 2 ^ (- k)) by (apply Z.pow_pos_nonneg; lia).
    replace (Ok k) with (Ok (0 - (- k))) by (f_equal; lia).
    apply (round_log2_frac_pow2 1 (Z.to_pos (2 ^ (- k))) 0 (- k));
      auto; lia.
Qed.



(** ** The strict branch on a value that is already in a subrange *)





(** Quantization leaves every bound unchanged when [integer] is off, when
    the bounds are Python ints and [logarithmic] is off, and when they are
    powers of two and [logarithmic] is on. *)
Lemma quantize_fixed_float subranges s lg b :
  quantize_fixed (Range_init subranges s lg false) b = true.
Proof. unfold quantize_fixed. simpl. apply num_eqb_true. reflexivity. Qed.

Lemma quantize_fixed_int subranges s z :
  quantize_fixed (Range_init subranges s false true) (Int z) = true.
Proof.
  unfold quantize_fixed. rewrite quantize_integer.
  apply num_eqb_true. simpl. now rewrite round_half_away_Z.
Qed.

Lemma quantize_fixed_pow2 subranges s k :
  quantize_fixed (Range_init subranges s true true) (pow2 k) = true.
Proof.
  unfold quantize_fixed, quantize. simpl.
  rewrite (proj2 (num_leb_zero_false (py_float (pow2 k))));
    [|apply pow2_positive].
  simpl. rewrite round_log2_pow2. simpl. apply num_eqb_refl.
Qed.


(** * Further properties of the module *)

(** ** Runs on lists that agree up to an offset *)













(** ** [__eq__] and [__ne__] *)

Lemma list_eqb_Forall2 a : forall b,
  list_eqb a b = true <-> Forall2 same_value a b.
Proof.
  induction a as [|x a IH]; intros [|y b]; simpl.
  - split; [constructor|reflexivity].
  - split; [discriminate|inversion 1].
  - split; [discriminate|inversion 1].
  - rewrite andb_true_iff, num_eqb_true, IH. split.
    + intros [Hxy HF]. now constructor.
    + inversion 1; subst. auto.
Qed.

Lemma Forall2_same_value_refl l : Forall2 same_value l l.
Proof. induction l; constructor; auto. unfold same_value. reflexivity. Qed.

Lemma Forall2_same_value_sym a b :
  Forall2 same_value a b -> Forall2 same_value b a.
Proof.
  induction 1; constructor; auto. unfold same_value in *. now symmetry.
Qed.

Lemma Forall2_same_value_trans a b : forall c,
  Forall2 same_value a b -> Forall2 same_value b c -> Forall2 same_value a c.
Proof.
  intros c Hab. revert c.
  induction Hab as [|x y a b Hxy Hab IH]; intros c Hbc; inversion Hbc; subst;
    constructor; auto.
  unfold same_value in *. etransitivity; eauto.
Qed.


Lemma Range_eq_Some r1 r2 :
  Range_eq r1 (Some r2) = true <->
  Forall2 same_value (mins r1) (mins r2) /\
  Forall2 same_value (maxes r1) (maxes r2) /\
  strict r1 = strict r2 /\ logarithmic r1 = logarithmic r2 /\
  integer r1 = integer r2.
Proof.
  unfold Range_eq.
  rewrite !andb_true_iff, !list_eqb_Forall2, !eqb_true_iff. tauto.
Qed.

(** X1. [__eq__] is an equivalence on Ranges (reflexive, symmetric,
    transitive) although it compares ints and floats by value; an object
    of another type is never equal to a Range; [__ne__] is its negation. *)
Theorem Range_eq_equivalence :
  (forall r, Range_eq r (Some r) = true) /\
  (forall r1 r2, Range_eq r1 (Some r2) = Range_eq r2 (Some r1)) /\
  (forall r1 r2 r3,
     Range_eq r1 (Some r2) = true -> Range_eq r2 (Some r3) = true ->
     Range_eq r1 (Some r3) = true) /\
  (forall r, Range_eq r None = false) /\
  (forall r other, Range_ne r other = negb (Range_eq r other)).
Proof.
  split; [|split; [|split; [|split]]]; try reflexivity.
  - intros r. apply Range_eq_Some.
    repeat split; auto using Forall2_same_value_refl.
  - assert (Hsym : forall r1 r2, Range_eq r1 (Some r2) = true ->
                                 Range_eq r2 (Some r1) = true).
    { intros r1 r2 H12. apply Range_eq_Some in H12.
      destruct H12 as (H1 & H2 & H3 & H4 & H5).
      apply Range_eq_Some.
      repeat split; auto using Forall2_same_value_sym. }
    intros r1 r2.
    destruct (Range_eq r1 (Some r2)) eqn:E1, (Range_eq r2 (Some r1)) eqn:E2;
      auto.
    + apply Hsym in E1. congruence.
    + apply Hsym in E2. congruence.
  - intros r1 r2 r3 H12 H23.
    apply Range_eq_Some in H12. apply Range_eq_Some in H23.
    destruct H12 as (A1 & A2 & A3 & A4 & A5).
    destruct H23 as (B1 & B2 & B3 & B4 & B5).
    apply Range_eq_Some.
    repeat split; try congruence; eapply Forall2_same_value_trans; eauto.
Qed.

Lemma Range_eq_equivalence_witness :
  Range_eq (Range_init [(Int 0, Int 10)] true false false)
    (Some (Range_init [(Float 0, Float 10)] true false false)) = true /\
  Range_eq (Range_init [(Float 0, Float 10)] true false false)
    (Some (Range_init [(Float (0 # 2), Int 10)] true false false)) = true /\
  Range_eq (Range_init [(Int 0, Int 10)] true false false)
    (Some (Range_init [(Float (0 # 2), Int 10)] true false false)) = true.
Proof.
  split; [reflexivity|]. split; [reflexivity|].
  apply (proj1 (proj2 (proj2 Range_eq_equivalence))
           (Range_init [(Int 0, Int 10)] true false false)
           (Range_init [(Float 0, Float 10)] true false false)
           (Range_init [(Float (0 # 2), Int 10)] true false false));
    reflexivity.
Defined.




(** ** The strict branch returns a nearest point *)







Lemma in_domain_nth subranges p :
  in_domain subranges p <->
  exists (j : nat) lo hi,
    nth_error subranges j = Some (lo, hi) /\ (toQ lo <= p)%Q /\ (p <= toQ hi)%Q.
Proof.
  unfold in_domain. split.
  - intros (lo & hi & Hin & Hp). apply In_nth_error in Hin as (j & Hj).
    eauto.
  - intros (j & lo & hi & Hj & Hp). apply nth_error_In in Hj. eauto.
Qed.






(** ** Monotonicity *)





(** ** More on [shifted_by] *)


Lemma combine_fst_snd {A B} (l : list (A * B)) :
  combine (map fst l) (map snd l) = l.
Proof. induction l as [|[a b] l IH]; simpl; congruence. Qed.







(** ** The accessors *)




(** X10. For a non-empty subrange list satisfying the invariant,
    [get_min()] and [get_max()] return the least and the greatest point
    of the domain: both lie in a subrange and every point of every
    subrange lies between them. *)
Theorem get_min_max_are_extremes subranges s lg ig :
  subranges_ok subranges = true -> subranges <> [] ->
  let r := Range_init subranges s lg ig in
  exists gmin gmax,
    Range_get_min r = Ok gmin /\ Range_get_max r = Ok gmax /\
    in_domain subranges (toQ gmin) /\ in_domain subranges (toQ gmax) /\
    forall p, in_domain subranges p -> (toQ gmin <= p)%Q /\ (p <= toQ gmax)%Q.
Proof.
  intros Hok Hne r. unfold r, Range_get_min, Range_get_max. simpl.
  destruct (py_index_in_range (map fst subranges) 0) as (gmin & Hg & Hng).
  { rewrite len_map. pose proof (len_pos _ Hne). lia. }
  destruct (py_index_minus_one (map snd subranges)) as (gmax & Hx & Hnx).
  { destruct subranges; [congruence|discriminate]. }
  exists gmin, gmax. split; [exact Hg|]. split; [exact Hx|].
  change (Z.to_nat 0) with 0%nat in Hng.
  apply nth_error_map_Some in Hng as ([lo0 hi0] & H0 & <-).
  pose proof Hnx as Hnx'.
  apply nth_error_map_Some in Hnx' as ([lo1 hi1] & H1 & <-).
  pose proof (subranges_ok_min_le_max _ _ _ _ Hok H0) as Hle0.
  pose proof (subranges_ok_min_le_max _ _ _ _ Hok H1) as Hle1.
  unfold num_le in *. cbn [fst snd] in *.
  split; [|split].
  - apply in_domain_nth. exists 0%nat, lo0, hi0.
    split; [exact H0|]. split; [lra|exact Hle0].
  - apply in_domain_nth. eexists _, lo1, hi1.
    split; [exact H1|]. split; [exact Hle1|lra].
  - intros p Hp. apply in_domain_nth in Hp as (j & lo & hi & Hj & Hp1 & Hp2).
    assert (Hjlen : (j < length subranges)%nat)
      by (apply nth_error_Some; congruence).
    assert (num_le lo0 lo).
    { apply (mins_ascending subranges Hok 0%nat j);
        [lia|now rewrite nth_error_map, H0|now rewrite nth_error_map, Hj]. }
    assert (num_le hi hi1).
    { apply (maxes_ascending subranges Hok j
               (length (map snd subranges) - 1)%nat);
        [rewrite length_map; lia|now rewrite nth_error_map, Hj|exact Hnx]. }
    unfold num_le in *. split; lra.
Qed.

Lemma get_min_max_are_extremes_witness :
  exists gmin gmax,
    Range_get_min
      (Range_init [(Int 0, Int 10); (Int 20, Int 30)] true false false)
    = Ok gmin /\
    Range_get_max
      (Range_init [(Int 0, Int 10); (Int 20, Int 30)] true false false)
    = Ok gmax /\
    in_domain [(Int 0, Int 10); (Int 20, Int 30)] (toQ gmin) /\
    in_domain [(Int 0, Int 10); (Int 20, Int 30)] (toQ gmax) /\
    forall p, in_domain [(Int 0, Int 10); (Int 20, Int 30)] p ->
              (toQ gmin <= p)%Q /\ (p <= toQ gmax)%Q.
Proof.
  apply (get_min_max_are_extremes [(Int 0, Int 10); (Int 20, Int 30)]
           true false false); [reflexivity|discriminate].
Defined.

(** ** Accuracy of the quantization *)





(** ** More on schemas *)

Section SchemaFacts.
Context {K : Type} `{Countable K} {V O S : Type}.

(** X12. The schema of a Range carries its subrange list and its
    [logarithmic] and [integer] flags exactly (two Ranges with the same
    schema agree on all three), and it does not carry [strict]. *)
Theorem range_schema_round_trip :
  (forall l1 s1 lg1 ig1 l2 s2 lg2 ig2,
     type_to_json (RangeT (Range_init l1 s1 lg1 ig1) : ValueType K V O S)
     = type_to_json (RangeT (Range_init l2 s2 lg2 ig2) : ValueType K V O S)
     ->
     l1 = l2 /\ lg1 = lg2 /\ ig1 = ig2) /\
  (forall l lg ig,
     type_to_json (RangeT (Range_init l true lg ig) : ValueType K V O S)
     = type_to_json
         (RangeT (Range_init l false lg ig) : ValueType K V O S)).
Proof.
  split; [|reflexivity].
  intros l1 s1 lg1 ig1 l2 s2 lg2 ig2 Heq.
  assert (Ha := f_equal (fun d => schema_lookup d "subranges") Heq).
  assert (Hb := f_equal (fun d => schema_lookup d "logarithmic") Heq).
  assert (Hc := f_equal (fun d => schema_lookup d "integer") Heq).
  cbn [schema_lookup type_to_json mins maxes logarithmic integer Range_init]
    in Ha, Hb, Hc.
  clear Heq.
  rewrite !combine_fst_snd in Ha.
  rewrite lookup_insert_ne, lookup_insert_eq in Ha by done.
  rewrite lookup_insert_ne, lookup_insert_eq in Ha by done.
  do 2 (rewrite lookup_insert_ne in Hb by done).
  rewrite lookup_insert_eq in Hb.
  do 2 (rewrite lookup_insert_ne in Hb by done).
  rewrite lookup_insert_eq in Hb.
  do 3 (rewrite lookup_insert_ne in Hc by done).
  rewrite lookup_insert_eq in Hc.
  do 3 (rewrite lookup_insert_ne in Hc by done).
  rewrite lookup_insert_eq in Hc.
  repeat split; congruence.
Qed.

(** X13. The schema tells the class: value types of different classes
    never have the same schema. *)
Theorem schema_determines_class (a b : ValueType K V O S) :
  type_to_json a = type_to_json b -> same_class a b = true.
Proof.
  intros Heq.
  assert (Htag : schema_tag (type_to_json a) = schema_tag (type_to_json b))
    by now rewrite Heq.
  destruct a, b; try reflexivity; simpl in Heq, Htag;
    try (destruct (pytype_eqb _ _); discriminate);
    simplify_map_eq.
Qed.
End SchemaFacts.

Lemma schema_determines_class_witness :
  same_class (Notice true : ValueType string string num string)
             (Notice true) = true.
Proof.
  apply (schema_determines_class
           (Notice true : ValueType string string num string) (Notice true)).
  reflexivity.
Defined.

(** ** More on Enum *)

(** X14. What [Enum.__call__] can do: a value it returns is the converted
    specimen and, when [strict], a key of [values]; an exception it raises
    is the one [base_type] raised, or [ValueError] for a converted
    specimen that is not a key under [strict]. *)
Theorem Enum_call_outcomes {K : Type} `{Countable K} {V S : Type}
    (e : Enum K V S) (specimen : S) :
  (forall k, Enum_call e specimen = Ok k ->
     enum_base_type e specimen = Ok k /\
     (enum_strict e = true -> k ∈ dom (enum_values e))) /\
  (forall ex, Enum_call e specimen = Raise ex ->
     enum_base_type e specimen = Raise ex \/
     (ex = ValueError /\ enum_strict e = true /\
      exists k, enum_base_type e specimen = Ok k /\
                k ∉ dom (enum_values e))).
Proof.
  unfold Enum_call.
  destruct (enum_base_type e specimen) as [k0| |]; simpl.
  - destruct (bool_decide (is_Some (enum_values e !! k0))) eqn:Ed; simpl.
    + apply bool_decide_eq_true in Ed.
      split; [|discriminate]. intros k [= <-].
      split; [reflexivity|]. intros _. now apply elem_of_dom.
    + apply bool_decide_eq_false in Ed.
      destruct (enum_strict e); simpl.
      * split; [discriminate|]. intros ex [= <-]. right.
        repeat split. exists k0. split; [reflexivity|].
        now rewrite elem_of_dom.
      * split; [|discriminate]. intros k [= <-]. split; [auto|discriminate].
  - split; [discriminate|]. intros ex [= <-]. now left.
  - split; discriminate.
Qed.

(** * The dependency tester *)

(** ** Dotted paths *)

Lemma split_dot_length path : forall first rest,
  split_dot path = (first, Some rest) ->
  String.length path = S (String.length first + String.length rest).
Proof.
  induction path as [|c path IH]; intros first rest; simpl.
  - discriminate.
  - destruct (Ascii.eqb c "."); [intros [= <- <-]; reflexivity|].
    destruct (split_dot path) as [f m]. intros [= <- ->].
    simpl. now rewrite (IH f rest eq_refl).
Qed.

Section DependencyFacts.
Variable obj : Type.
Variable getattr : obj -> string -> attr_exn + obj.

(** Any fuel that covers the length of the path gives the same run. *)
Lemma hasattr_path_fuel_enough fuel1 : forall fuel2 o path,
  (String.length path <= fuel1)%nat -> (String.length path <= fuel2)%nat ->
  hasattr_path_fuel getattr fuel1 o path
  = hasattr_path_fuel getattr fuel2 o path.
Proof.
  induction fuel1 as [|fuel1 IH]; intros fuel2 o path H1 H2;
    destruct fuel2 as [|fuel2]; simpl;
    destruct (split_dot path) as [first [rest|]] eqn:Es; try reflexivity;
    apply split_dot_length in Es; try lia.
  destruct (hasattr getattr o first); [|reflexivity].
  destruct (getattr o first); [reflexivity|].
  apply IH; lia.
Qed.

Lemma getattr_path_fuel_enough fuel1 : forall fuel2 o path,
  (String.length path <= fuel1)%nat -> (String.length path <= fuel2)%nat ->
  getattr_path_fuel getattr fuel1 o path
  = getattr_path_fuel getattr fuel2 o path.
Proof.
  induction fuel1 as [|fuel1 IH]; intros fuel2 o path H1 H2;
    destruct fuel2 as [|fuel2]; simpl;
    destruct (split_dot path) as [first [rest|]] eqn:Es; try reflexivity;
    apply split_dot_length in Es; try lia.
  destruct (getattr o first); [reflexivity|].
  apply IH; lia.
Qed.

(** The two functions as the source writes them. *)
Lemma hasattr_path_unfold o path :
  hasattr_path getattr o path =
  match split_dot path with
  | (_, None) => Got (hasattr getattr o path)
  | (first, Some rest) =>
      if hasattr getattr o first then
        match getattr o first with
        | inr next => hasattr_path getattr next rest
        | inl e => Failed e
        end
      else Got false
  end.
Proof.
  unfold hasattr_path.
  destruct (String.length path) as [|n] eqn:En; simpl;
    destruct (split_dot path) as [first [rest|]] eqn:Es; try reflexivity;
    apply split_dot_length in Es; try lia.
  destruct (hasattr getattr o first); [|reflexivity].
  destruct (getattr o first); [reflexivity|].
  apply hasattr_path_fuel_enough; lia.
Qed.

Lemma getattr_path_unfold o path :
  getattr_path getattr o path =
  match split_dot path with
  | (_, None) =>
      match getattr o path with
      | inr v => Got v
      | inl e => Failed e
      end
  | (first, Some rest) =>
      match getattr o first with
      | inr next => getattr_path getattr next rest
      | inl e => Failed e
      end
  end.
Proof.
  unfold getattr_path.
  destruct (String.length path) as [|n] eqn:En; simpl;
    destruct (split_dot path) as [first [rest|]] eqn:Es; try reflexivity;
    apply split_dot_length in Es; try lia.
  destruct (getattr o first); [reflexivity|].
  apply getattr_path_fuel_enough; lia.
Qed.

Lemma has_get_agree_fuel n : forall o path,
  (String.length path <= n)%nat ->
  exists b, hasattr_path getattr o path = Got b /\
    if b then exists v, getattr_path getattr o path = Got v
    else exists e, getattr_path getattr o path = Failed e.
Proof.
  induction n as [|n IH]; intros o path Hn;
    rewrite hasattr_path_unfold, getattr_path_unfold;
    destruct (split_dot path) as [first [rest|]] eqn:Es;
    try (apply split_dot_length in Es; lia).
  - unfold hasattr.
    destruct (getattr o path); [exists false|exists true]; eauto.
  - apply split_dot_length in Es.
    unfold hasattr.
    destruct (getattr o first) as [e|next]; [exists false; eauto|].
    apply IH. lia.
  - unfold hasattr.
    destruct (getattr o path); [exists false|exists true]; eauto.
Qed.
End DependencyFacts.

Lemma append_cons c s t : String c s +:+ t = String c (s +:+ t).
Proof. reflexivity. Qed.

Lemma append_empty_inv a b :
  a +:+ b = EmptyString -> a = EmptyString /\ b = EmptyString.
Proof.
  destruct a as [|c a]; [intros Hb; split; [reflexivity|exact Hb]|].
  rewrite append_cons. discriminate.
Qed.

Lemma split_dot_app p1 p2 :
  split_dot (p1 +:+ "." +:+ p2) =
  match split_dot p1 with
  | (_, None) => (p1, Some p2)
  | (first, Some rest) => (first, Some (rest +:+ "." +:+ p2))
  end.
Proof.
  induction p1 as [|c p1 IH].
  - reflexivity.
  - rewrite append_cons. simpl. destruct (Ascii.eqb c "."); [reflexivity|].
    rewrite IH. now destruct (split_dot p1) as [f [r|]].
Qed.

Section PathFacts.
Variable obj : Type.
Variable getattr : obj -> string -> attr_exn + obj.

(** X15. [hasattr_path] and [getattr_path] agree: on every object and
    path [hasattr_path] returns a boolean, which is true exactly when
    [getattr_path] returns a value and false exactly when it raises. *)
Theorem hasattr_path_iff_getattr_path (o : obj) (path : string) :
  exists b,
    hasattr_path getattr o path = Got b /\
    (b = true <-> exists v, getattr_path getattr o path = Got v) /\
    (b = false <-> exists e, getattr_path getattr o path = Failed e).
Proof.
  destruct (has_get_agree_fuel obj getattr (String.length path) o path)
    as (b & Hb & Hg); [lia|].
  exists b. split; [exact Hb|].
  destruct b; destruct Hg as (w & Hw); rewrite Hw; split; split;
    eauto; try discriminate; intros (? & ?); discriminate.
Qed.

Lemma getattr_path_compose_fuel n : forall (o : obj) p1 p2,
  (String.length p1 <= n)%nat ->
  getattr_path getattr o (p1 +:+ "." +:+ p2) =
  match getattr_path getattr o p1 with
  | Got o' => getattr_path getattr o' p2
  | Failed e => Failed e
  | NoFuel => NoFuel
  end.
Proof.
  induction n as [|n IH]; intros o p1 p2 Hn;
    rewrite (getattr_path_unfold _ _ o (p1 +:+ "." +:+ p2)), split_dot_app,
            (getattr_path_unfold _ _ o p1);
    destruct (split_dot p1) as [first [rest|]] eqn:Es;
    try (apply split_dot_length in Es; lia).
  - destruct (getattr o p1); reflexivity.
  - apply split_dot_length in Es.
    destruct (getattr o first) as [e|next]; [reflexivity|].
    apply IH. lia.
  - destruct (getattr o p1); reflexivity.
Qed.

(** X16. Dotted paths compose: following [p1.p2] from [o] is following
    [p1] from [o] and then [p2] from the object reached; it raises what
    the first part raises. *)
Theorem getattr_path_compose (o : obj) (p1 p2 : string) :
  getattr_path getattr o (p1 +:+ "." +:+ p2) =
  match getattr_path getattr o p1 with
  | Got o' => getattr_path getattr o' p2
  | Failed e => Failed e
  | NoFuel => NoFuel
  end.
Proof. apply (getattr_path_compose_fuel (String.length p1)). lia. Qed.
End PathFacts.

(** ** The report *)

Lemma size_zero_empty (X : gset (string * string)) : size X = 0%nat -> X = ∅.
Proof. intros Hs. apply leibniz_equiv. now apply size_empty_iff. Qed.

Lemma append_not_empty_r a b : b <> EmptyString -> a +:+ b <> EmptyString.
Proof. intros Hb Hab. apply append_empty_inv in Hab. tauto. Qed.

Lemma append_not_empty_l a b : a <> EmptyString -> a +:+ b <> EmptyString.
Proof. intros Ha Hab. apply append_empty_inv in Hab. tauto. Qed.

Lemma report_None_sets (t : DependencyTester) :
  report t = None <-> missing t = ∅ /\ broken t = ∅ /\ old_ t = ∅.
Proof.
  unfold report.
  assert (Hhdr : forall a h rest,
             h <> EmptyString -> a +:+ h +:+ rest <> EmptyString).
  { intros a h rest Hh. apply append_not_empty_r.
    now apply append_not_empty_l. }
  destruct (Nat.ltb 0 (size (missing t))) eqn:E1;
    destruct (Nat.ltb 0 (size (broken t))) eqn:E2;
    destruct (Nat.ltb 0 (size (old_ t))) eqn:E3; cbv zeta.
  8:{ apply Nat.ltb_ge in E1, E2, E3. split; [intros _|reflexivity].
      repeat split; apply size_zero_empty; lia. }
  all: match goal with
       | |- context [String.eqb ?x EmptyString] =>
           assert (Hx : x <> EmptyString) by (apply Hhdr; discriminate)
       end;
       apply String.eqb_neq in Hx; rewrite Hx;
       (split; [discriminate|]);
       intros (H1 & H2 & H3); rewrite ?H1, ?H2, ?H3, size_empty in *;
       discriminate.
Qed.

(** X17. [report()] returns [None] exactly when nothing was recorded in
    any of the three sets; in particular a new tester reports [None]. *)
Theorem report_None_iff (t : DependencyTester) :
  (report t = None <->
   missing t = ∅ /\ broken t = ∅ /\ old_ t = ∅) /\
  report DependencyTester_init = None.
Proof. split; [apply report_None_sets|reflexivity]. Qed.

(** ** The checks *)

Section TesterFacts.
Variable obj : Type.
Variable getattr : obj -> string -> attr_exn + obj.
Variable import_module : string -> import_outcome obj.
Variable py_None : obj.

Lemma check_attr_cases t module_name dep_name (module : obj) attr_path old :
  (hasattr_path getattr module attr_path = Got true /\
   check_attr getattr t module_name dep_name module attr_path old = Got t) \/
  (hasattr_path getattr module attr_path = Got false /\
   check_attr getattr t module_name dep_name module attr_path old =
   Got (if old
        then add_old t (dep_name,
               module_name +:+ "." +:+ attr_path +:+ " not present.")
        else add_missing t (dep_name,
               module_name +:+ "." +:+ attr_path +:+ " not present."))).
Proof.
  unfold check_attr.
  destruct (has_get_agree_fuel obj getattr (String.length attr_path)
              module attr_path) as (b & Hb & Hg); [lia|].
  rewrite Hb. destruct b.
  - left. destruct Hg as (v & ->). auto.
  - right. split; [reflexivity|]. now destruct old.
Qed.

(** X18. [check_attr] always returns and never records anything as
    broken: when the attribute path exists the tester is left as it is,
    otherwise exactly one entry is added, to the old set if [old] is true
    and to the missing set if not. *)
Theorem check_attr_effect t module_name dep_name (module : obj) attr_path old :
  exists t',
    check_attr getattr t module_name dep_name module attr_path old = Got t' /\
    broken t' = broken t /\
    (hasattr_path getattr module attr_path = Got true -> t' = t) /\
    (hasattr_path getattr module attr_path = Got false ->
     t' = if old
          then add_old t (dep_name,
                 module_name +:+ "." +:+ attr_path +:+ " not present.")
          else add_missing t (dep_name,
                 module_name +:+ "." +:+ attr_path +:+ " not present.")).
Proof.
  destruct (check_attr_cases t module_name dep_name module attr_path old)
    as [[Hh ->]|[Hh ->]]; eexists; (split; [reflexivity|]);
    rewrite Hh; repeat split; try congruence; try discriminate.
  now destruct old.
Qed.

(** X19. [check_module] returns the module and records nothing when the
    import succeeds.  When it fails it returns [None], records at most one
    entry, in the missing or the broken set and never in the old set, and
    records nothing at all for an [ImportError] whose message does not
    start with ['No module named ']. *)
Theorem check_module_effect t module_name dep_name old t' (m : obj) :
  check_module import_module py_None t module_name dep_name old = (t', m) ->
  old_ t' = old_ t /\
  (forall module, import_module module_name = Imported module ->
                  t' = t /\ m = module) /\
  ((forall module, import_module module_name <> Imported module) ->
   m = py_None /\
   (t' = t \/
    (exists e, t' = add_missing t e /\ fst e = dep_name) \/
    (exists e, t' = add_broken t e /\ fst e = dep_name))) /\
  (forall msg text,
     import_module module_name = ImportError msg text ->
     String.prefix "No module named " msg = false -> t' = t).
Proof.
  unfold check_module. intros Hc.
  destruct (import_module module_name) as [module|msg text|text] eqn:Ei.
  - injection Hc as <- <-.
    split; [reflexivity|]. split; [now intros module' [= <-]|].
    split; [|discriminate].
    intros Hno. exfalso. now apply (Hno module).
  - split; [|split; [discriminate|split]].
    + destruct (String.prefix "No module named " msg);
        [destruct (endswith _ _)|]; now injection Hc as <- <-.
    + intros _.
      destruct (String.prefix "No module named " msg);
        [destruct (endswith _ _)|]; injection Hc as <- <-;
        (split; [reflexivity|]); eauto.
    + intros msg' text' [= <- <-] Hp. rewrite Hp in Hc.
      now injection Hc as <- <-.
  - injection Hc as <- <-.
    split; [reflexivity|]. split; [discriminate|].
    split; [|discriminate]. intros _. split; [reflexivity|]. eauto.
Qed.

(** X20. [check_module_attr] always returns, and its [old] argument has
    no effect: the attribute is always checked with [old=True], so a
    missing attribute is recorded as too old, never as missing.  When the
    module imports and has the attribute path, the tester is left as it
    is. *)
Theorem check_module_attr_ignores_old t module_name dep_name attr_path old :
  check_module_attr getattr import_module py_None t module_name dep_name
    attr_path old
  = check_module_attr getattr import_module py_None t module_name dep_name
      attr_path (negb old) /\
  (exists t',
     check_module_attr getattr import_module py_None t module_name dep_name
       attr_path old = Got t' /\
     missing t' =
       missing (fst (check_module import_module py_None t module_name
                       dep_name old)) /\
     broken t' =
       broken (fst (check_module import_module py_None t module_name
                      dep_name old))) /\
  (forall module,
     import_module module_name = Imported module ->
     hasattr_path getattr module attr_path = Got true ->
     check_module_attr getattr import_module py_None t module_name dep_name
       attr_path old = Got t).
Proof.
  split; [reflexivity|]. split.
  - unfold check_module_attr.
    destruct (check_module import_module py_None t module_name dep_name old)
      as [t1 m].
    destruct (check_attr_cases t1 module_name dep_name m attr_path true)
      as [[_ ->]|[_ ->]]; eexists; split; reflexivity || auto.
  - intros module Hi Hh. unfold check_module_attr, check_module. rewrite Hi.
    destruct (check_attr_cases t module_name dep_name module attr_path true)
      as [[_ ->]|[Hf _]]; [reflexivity|congruence].
Qed.

(** X21. A module that cannot be imported is reported twice: when the
    import fails with ['No module named ...'] and [None] lacks the
    attribute path, [check_module_attr] records the module as missing and
    also records the attribute as too old, and [report()] is not
    [None]. *)
Theorem missing_module_recorded_twice t module_name dep_name attr_path old
    msg text :
  import_module module_name = ImportError msg text ->
  String.prefix "No module named " msg = true ->
  endswith module_name (drop_prefix (String.length "No module named ") msg)
  = true ->
  hasattr_path getattr py_None attr_path = Got false ->
  check_module_attr getattr import_module py_None t module_name dep_name
    attr_path old
  = Got (add_old
           (add_missing t (dep_name, module_name +:+ " not present."))
           (dep_name,
            module_name +:+ "." +:+ attr_path +:+ " not present.")) /\
  report (add_old
            (add_missing t (dep_name, module_name +:+ " not present."))
            (dep_name,
             module_name +:+ "." +:+ attr_path +:+ " not present."))
  <> None.
Proof.
  intros Hi Hp He Hh. split.
  - unfold check_module_attr, check_module. rewrite Hi, Hp, He.
    destruct (check_attr_cases
                (add_missing t (dep_name, module_name +:+ " not present."))
                module_name dep_name py_None attr_path true)
      as [[Ht _]|[_ ->]]; [congruence|reflexivity].
  - intros Hr. apply report_None_sets in Hr.
    destruct Hr as (Hm & _). simpl in Hm. set_solver.
Qed.
End TesterFacts.

Lemma check_module_effect_witness :
  old_ (add_missing DependencyTester_init ("NumPy", "numpy not present."))
  = old_ DependencyTester_init /\
  (forall module, example_import "numpy" = Imported module ->
     add_missing DependencyTester_init ("NumPy", "numpy not present.")
     = DependencyTester_init /\ 99%nat = module) /\
  ((forall module, example_import "numpy" <> Imported module) ->
   99%nat = 99%nat /\
   (add_missing DependencyTester_init ("NumPy", "numpy not present.")
    = DependencyTester_init \/
    (exists e,
       add_missing DependencyTester_init ("NumPy", "numpy not present.")
       = add_missing DependencyTester_init e /\ fst e = "NumPy") \/
    (exists e,
       add_missing DependencyTester_init ("NumPy", "numpy not present.")
       = add_broken DependencyTester_init e /\ fst e = "NumPy"))) /\
  (forall msg text,
     example_import "numpy" = ImportError msg text ->
     String.prefix "No module named " msg = false ->
     add_missing DependencyTester_init ("NumPy", "numpy not present.")
     = DependencyTester_init).
Proof.
  apply (check_module_effect nat example_import 99%nat
           DependencyTester_init "numpy" "NumPy" false
           (add_missing DependencyTester_init
              ("NumPy", "numpy not present.")) 99%nat).
  reflexivity.
Defined.

Lemma missing_module_recorded_twice_witness :
  check_module_attr example_getattr example_import 99%nat
    DependencyTester_init "numpy" "NumPy" "version" false
  = Got (add_old
           (add_missing DependencyTester_init
              ("NumPy", "numpy" +:+ " not present."))
           ("NumPy", "numpy" +:+ "." +:+ "version" +:+ " not present.")) /\
  report (add_old
            (add_missing DependencyTester_init
               ("NumPy", "numpy" +:+ " not present."))
            ("NumPy", "numpy" +:+ "." +:+ "version" +:+ " not present."))
  <> None.
Proof.
  apply (missing_module_recorded_twice nat example_getattr example_import
           99%nat DependencyTester_init "numpy" "NumPy" "version" false
           "No module named numpy" "No module named numpy");
    reflexivity.
Defined.

Section GrowthFacts.
Variable obj : Type.
Variable getattr : obj -> string -> attr_exn + obj.
Variable import_module : string -> import_outcome obj.
Variable py_None : obj.

Lemma check_module_grows t module_name dep_name old :
  missing t ⊆
    missing (fst (check_module import_module py_None t module_name
                    dep_name old)) /\
  broken t ⊆
    broken (fst (check_module import_module py_None t module_name
                   dep_name old)) /\
  old_ (fst (check_module import_module py_None t module_name dep_name old))
  = old_ t.
Proof.
  unfold check_module.
  destruct (import_module module_name) as [module|msg text|text];
    [|destruct (String.prefix "No module named " msg);
      [destruct (endswith _ _)|]|];
    simpl; repeat split; try reflexivity; apply union_subseteq_r.
Qed.

(** X22. The checks only ever add entries: after [check_module_attr]
    every entry recorded before is still recorded, in the same set, so a
    tester whose [report()] is not [None] never goes back to reporting
    [None]. *)
Theorem checks_only_add t module_name dep_name attr_path old :
  exists t',
    check_module_attr getattr import_module py_None t module_name dep_name
      attr_path old = Got t' /\
    missing t ⊆ missing t' /\ broken t ⊆ broken t' /\ old_ t ⊆ old_ t' /\
    (report t <> None -> report t' <> None).
Proof.
  unfold check_module_attr.
  destruct (check_module_grows t module_name dep_name old)
    as (Hm & Hb & Ho).
  destruct (check_module import_module py_None t module_name dep_name old)
    as [t1 m]. simpl in Hm, Hb, Ho.
  assert (Hsub : forall t',
             missing t1 ⊆ missing t' -> broken t1 ⊆ broken t' ->
             old_ t1 ⊆ old_ t' ->
             missing t ⊆ missing t' /\ broken t ⊆ broken t' /\
             old_ t ⊆ old_ t' /\ (report t <> None -> report t' <> None)).
  { intros t' H1 H2 H3.
    assert (Hold : old_ t ⊆ old_ t') by (rewrite <- Ho; exact H3).
    split; [etransitivity; eauto|]. split; [etransitivity; eauto|].
    split; [exact Hold|].
    intros Hr Hr'. apply Hr. apply report_None_sets.
    apply report_None_sets in Hr' as (E1 & E2 & E3).
    assert (Hmt : missing t ⊆ missing t') by (etransitivity; eauto).
    assert (Hbt : broken t ⊆ broken t') by (etransitivity; eauto).
    rewrite E1 in Hmt. rewrite E2 in Hbt. rewrite E3 in Hold.
    clear - Hmt Hbt Hold.
    repeat split; apply leibniz_equiv; apply equiv_empty;
      assumption. }
  destruct (check_attr_cases obj getattr t1 module_name dep_name m
              attr_path true) as [[_ ->]|[_ ->]];
    eexists; (split; [reflexivity|]); apply Hsub; simpl;
    try reflexivity; apply union_subseteq_r.
Qed.
End GrowthFacts.
